(** * Black Magic Debug App, hosted serial transport (serial_unix.c)

    A shallow embedding of [src/platforms/hosted/serial_unix.c]: the framed
    buffered reader ([bmda_read_more_data], [platform_buffer_read]), the
    writer ([platform_buffer_write]) and the endpoint selection of
    [serial_open] with its helpers [device_is_bmp_gdb_port] and
    [match_serial].  Of the two variants of [serial_open] the one for hosts
    other than macOS is embedded (the [#else] branch).

    Conventions.
    - [size_t] values are integers reduced modulo 2^64, [int] results are
      reduced to the signed 32-bit range; the reductions are written where
      the C code computes in those types.
    - Bytes are integers in 0..255.  Arrays are lists; an access outside an
      array is the outcome [Undefined].
    - System calls are answered by an explicit environment: the transport is
      the list of answers that successive select()/read() pairs will give. *)

From Stdlib Require Import ZArith Bool Ascii String List Permutation Lia.
Import ListNotations.
Open Scope Z_scope.

(** ** Machine integers *)

Definition size_t (x : Z) : Z := x mod 2 ^ 64.

Definition INT_MAX : Z := 2147483647.

(** Conversion of an integer value to [int] (two's complement, 32 bits). *)
Definition int_of (x : Z) : Z := (x + 2 ^ 31) mod 2 ^ 32 - 2 ^ 31.

(** ** Arrays *)

(** [a[i]] *)
Definition load (a : list Z) (i : Z) : option Z :=
  if (0 <=? i) && (i <? Z.of_nat (length a))
  then nth_error a (Z.to_nat i)
  else None.

(** [a[i] = v] *)
Definition store (a : list Z) (i : Z) (v : Z) : option (list Z) :=
  if (0 <=? i) && (i <? Z.of_nat (length a))
  then Some (firstn (Z.to_nat i) a ++ v :: skipn (S (Z.to_nat i)) a)
  else None.

(** [memcpy(dst + d, src + s, n)] *)
Definition memcpy (dst : list Z) (d : Z) (src : list Z) (s : Z) (n : Z)
  : option (list Z) :=
  if n =? 0 then Some dst
  else if (0 <=? d) && (0 <=? s) && (0 <? n)
          && (d + n <=? Z.of_nat (length dst))
          && (s + n <=? Z.of_nat (length src))
  then Some (firstn (Z.to_nat d) dst
             ++ firstn (Z.to_nat n) (skipn (Z.to_nat s) src)
             ++ skipn (Z.to_nat (d + n)) dst)
  else None.

(** ** Connection state

    The file-scope variables of serial_unix.c. *)

Definition READ_BUFFER_LENGTH : Z := 4096.

Record serial_state : Type := mkSerial {
  fd : Z;
  read_buffer : list Z;
  read_buffer_fullness : Z;
  read_buffer_offset : Z
}.

Definition set_fd (st : serial_state) (v : Z) : serial_state :=
  mkSerial v (read_buffer st) (read_buffer_fullness st) (read_buffer_offset st).

Definition set_offset (st : serial_state) (v : Z) : serial_state :=
  mkSerial (fd st) (read_buffer st) (read_buffer_fullness st) v.

(** The state when the program starts: statics are zero-initialised. *)
Definition initial_state : serial_state :=
  mkSerial 0 (repeat 0 (Z.to_nat READ_BUFFER_LENGTH)) 0 0.

(** ** The transport as seen by the reader

    One element answers one select()/read() pair of [bmda_read_more_data]. *)
Inductive transport_response : Type :=
| SelectFailed                  (* select() < 0 *)
| SelectTimedOut                (* select() == 0 *)
| ReadFailed                    (* select() > 0, read() < 0 *)
| ReadData (chunk : list Z).    (* select() > 0, read() == length chunk,
                                   chunk stored at the start of read_buffer *)

(** Result of running a piece of C code. *)
Inductive outcome (A : Type) : Type :=
| Returned (a : A)
| Undefined        (* an access outside an array, or to a byte never set *)
| OutOfFuel.       (* the iteration bound of the model was reached *)
Arguments Returned {A} a.
Arguments Undefined {A}.
Arguments OutOfFuel {A}.

(** How a loop inside a function ends: it falls through to the next
    statement, or the function returns from inside the loop. *)
Inductive flow : Type :=
| Next
| Return (result : Z).

(** [bmda_read_more_data].  When the list of answers is used up nothing more
    arrives on the descriptor and select() runs into its timeout. *)
Definition bmda_read_more_data (st : serial_state) (io : list transport_response)
  : Z * serial_state * list transport_response :=
  match io with
  | [] => (-4, st, [])
  | SelectFailed :: io' => (-3, st, io')
  | SelectTimedOut :: io' => (-4, st, io')
  | ReadFailed :: io' => (-6, st, io')
  | ReadData chunk :: io' =>
      let bytes_received := Z.of_nat (length chunk) in
      (0,
       mkSerial (fd st)
                (chunk ++ skipn (length chunk) (read_buffer st))
                bytes_received
                0,
       io')
  end.

(** The block [if (read_buffer_offset == read_buffer_fullness) { result =
    bmda_read_more_data(); ... }] that opens the body of both loops of
    [platform_buffer_read]; without a refill there is no result to test,
    which is rendered as 0. *)
Definition refill_if_empty (st : serial_state) (io : list transport_response)
  : Z * serial_state * list transport_response :=
  if read_buffer_offset st =? read_buffer_fullness st
  then bmda_read_more_data st io
  else (0, st, io).

Section Reader.

(** The two frame delimiters of remote.h, which is not part of the sources:
    both are ASCII character constants of the remote protocol, so that
    comparing one with a [char] or with a [uint8_t] compares byte values. *)
Variable REMOTE_RESP : Z.
Variable REMOTE_EOM : Z.

(** First loop of [platform_buffer_read]:
    [for (char response = 0; response != REMOTE_RESP;) ...] *)
Fixpoint drain_to_response (fuel : nat) (response : Z)
    (st : serial_state) (io : list transport_response) {struct fuel}
  : outcome (flow * serial_state * list transport_response) :=
  if response =? REMOTE_RESP then Returned (Next, st, io)
  else
    match fuel with
    | O => OutOfFuel
    | S fuel' =>
        let '(result, st1, io1) := refill_if_empty st io in
        if result <? 0 then Returned (Return result, st1, io1)
        else
          match load (read_buffer st1) (read_buffer_offset st1) with
          | None => Undefined
          | Some byte =>
              drain_to_response fuel' byte
                (set_offset st1 (size_t (read_buffer_offset st1 + 1))) io1
          end
    end.

(** The inner scan of the second loop, looking for an end of packet marker;
    [n] bounds the number of iterations. *)
Fixpoint scan_for_eom (n : nat) (st : serial_state)
    (offset length response_length : Z) {struct n} : outcome Z :=
  if (size_t (read_buffer_offset st + response_length) <? read_buffer_fullness st)
     && (size_t (offset + response_length) <? length)
  then
    match n with
    | O => OutOfFuel
    | S n' =>
        match load (read_buffer st)
                   (size_t (read_buffer_offset st + response_length)) with
        | None => Undefined
        | Some byte =>
            if byte =? REMOTE_EOM then Returned (size_t (response_length + 1))
            else scan_for_eom n' st offset length (size_t (response_length + 1))
        end
    end
  else Returned response_length.

(** Second loop of [platform_buffer_read]:
    [for (size_t offset = 0; offset < length;) ...], followed by
    [return length]. *)
Fixpoint collect_response (fuel : nat) (offset : Z) (buffer : list Z)
    (length : Z) (st : serial_state) (io : list transport_response)
    {struct fuel}
  : outcome (Z * list Z * serial_state * list transport_response) :=
  if offset <? length then
    match fuel with
    | O => OutOfFuel
    | S fuel' =>
        let '(result, st1, io1) := refill_if_empty st io in
        if result <? 0 then Returned (int_of result, buffer, st1, io1)
        else
          match scan_for_eom (Z.to_nat (read_buffer_fullness st1)) st1
                             offset length 0 with
          | Undefined => Undefined
          | OutOfFuel => OutOfFuel
          | Returned response_length =>
              match memcpy buffer offset (read_buffer st1)
                           (read_buffer_offset st1) response_length with
              | None => Undefined
              | Some buffer1 =>
                  let st2 :=
                    set_offset st1
                      (size_t (read_buffer_offset st1 + response_length)) in
                  let offset1 := size_t (offset + size_t (response_length - 1)) in
                  match load buffer1 offset1 with
                  | None => Undefined
                  | Some byte =>
                      if byte =? REMOTE_EOM then
                        match store buffer1 offset1 0 with
                        | None => Undefined
                        | Some buffer2 =>
                            Returned (int_of offset1, buffer2, st2, io1)
                        end
                      else
                        collect_response fuel' (size_t (offset1 + 1))
                                         buffer1 length st2 io1
                  end
              end
          end
    end
  else Returned (int_of length, buffer, st, io).

(** Iteration bound of the two loops: on a well-formed buffer every
    iteration takes at least one byte out of the read buffer or one answer
    out of the transport. *)
Definition iterations (io : list transport_response) : nat :=
  (S (List.length io) * S (Z.to_nat READ_BUFFER_LENGTH))%nat.

(** [platform_buffer_read(data, length)]; [buffer] is the memory [data]
    points to.  The result is the returned [int], the memory afterwards, the
    connection state and what is left of the transport's answers. *)
Definition platform_buffer_read (buffer : list Z) (length : Z)
    (st : serial_state) (io : list transport_response)
  : outcome (Z * list Z * serial_state * list transport_response) :=
  match drain_to_response (iterations io) 0 st io with
  | Undefined => Undefined
  | OutOfFuel => OutOfFuel
  | Returned (Return result, st1, io1) =>
      Returned (int_of result, buffer, st1, io1)
  | Returned (Next, st1, io1) =>
      collect_response (iterations io1) 0 buffer length st1 io1
  end.

End Reader.

(** The delimiters as the remote protocol defines them, used for the
    concrete runs below: ['&'] and ['#']. *)
Definition RESP_AMPERSAND : Z := 38.
Definition EOM_HASH : Z := 35.

Definition run_read := platform_buffer_read RESP_AMPERSAND EOM_HASH.

(** The value a call returned, and the cursors it left behind. *)
Definition returned_value
    (o : outcome (Z * list Z * serial_state * list transport_response))
  : option Z :=
  match o with
  | Returned (result, _, _, _) => Some result
  | _ => None
  end.

Definition cursors_after
    (o : outcome (Z * list Z * serial_state * list transport_response))
  : option (Z * Z * Z) :=
  match o with
  | Returned (result, _, st, _) =>
      Some (result, read_buffer_offset st, read_buffer_fullness st)
  | _ => None
  end.

(** ** The byte stream behind the buffer

    What the reader does is stated against the logical byte stream: the
    bytes still unread in the read buffer followed by the chunks the
    transport will deliver, up to the first answer that is not data. *)

(** The Receive Buffer invariant of the data model. *)
Definition cursors_ok (st : serial_state) : Prop :=
  0 <= read_buffer_offset st
  /\ read_buffer_offset st <= read_buffer_fullness st
  /\ read_buffer_fullness st <= READ_BUFFER_LENGTH.

(** The invariant together with the size of the array itself. *)
Definition buffer_ok (st : serial_state) : Prop :=
  cursors_ok st /\ Z.of_nat (length (read_buffer st)) = READ_BUFFER_LENGTH.

Definition buffer_okb (st : serial_state) : bool :=
  (0 <=? read_buffer_offset st)
  && (read_buffer_offset st <=? read_buffer_fullness st)
  && (read_buffer_fullness st <=? READ_BUFFER_LENGTH)
  && (Z.of_nat (length (read_buffer st)) =? READ_BUFFER_LENGTH).

(** The bytes held in the buffer and not consumed yet. *)
Definition pending (st : serial_state) : list Z :=
  firstn (Z.to_nat (read_buffer_fullness st - read_buffer_offset st))
         (skipn (Z.to_nat (read_buffer_offset st)) (read_buffer st)).

(** A read() that reported data delivered at least one byte and no more than
    the READ_BUFFER_LENGTH bytes it was asked for. *)
Definition response_okb (r : transport_response) : bool :=
  match r with
  | ReadData chunk =>
      (0 <? Z.of_nat (length chunk))
      && (Z.of_nat (length chunk) <=? READ_BUFFER_LENGTH)
  | _ => true
  end.

Definition responses_okb (io : list transport_response) : bool :=
  forallb response_okb io.

(** The bytes the transport delivers before its first failure, and the
    result code of that failure (a timeout once the answers are used up). *)
Fixpoint incoming (io : list transport_response) : list Z * Z :=
  match io with
  | [] => ([], -4)
  | SelectFailed :: _ => ([], -3)
  | SelectTimedOut :: _ => ([], -4)
  | ReadFailed :: _ => ([], -6)
  | ReadData chunk :: io' =>
      let '(bytes, code) := incoming io' in (chunk ++ bytes, code)
  end.

Definition stream (st : serial_state) (io : list transport_response) : list Z :=
  pending st ++ fst (incoming io).

Definition failure (io : list transport_response) : Z := snd (incoming io).

(** The array [a] with the bytes [c] stored from index [o] on. *)
Definition overwrite (a : list Z) (o : nat) (c : list Z) : list Z :=
  firstn o a ++ c ++ skipn (o + length c) a.

(** How the body of a frame ends. *)
Inductive frame_end : Type :=
| Terminated     (* an end-of-message marker was reached *)
| Filled         (* the destination is full *)
| Starved.       (* the stream ended first *)

Section Frames.

Variable REMOTE_RESP : Z.
Variable REMOTE_EOM : Z.

(** The stream behind its first start-of-response marker. *)
Fixpoint after_response (bytes : list Z) : option (list Z) :=
  match bytes with
  | [] => None
  | b :: bytes' =>
      if b =? REMOTE_RESP then Some bytes' else after_response bytes'
  end.

(** The bytes one pass of the scan selects from the buffered bytes [p] when
    [room] places are left in the destination, and whether the pass stopped
    on an end-of-message marker. *)
Fixpoint scan_chunk (room : nat) (p : list Z) : list Z * bool :=
  match room, p with
  | S room', b :: p' =>
      if b =? REMOTE_EOM then ([b], true)
      else let '(c, found) := scan_chunk room' p' in (b :: c, found)
  | _, _ => ([], false)
  end.

(** The bytes a frame body puts into a destination with [room] places: the
    payload, with a 0 in the place of the end-of-message marker. *)
Fixpoint frame_body (room : nat) (bytes : list Z) : frame_end * list Z :=
  match room with
  | O => (Filled, [])
  | S room' =>
      match bytes with
      | [] => (Starved, [])
      | b :: bytes' =>
          if b =? REMOTE_EOM then (Terminated, [0])
          else let '(e, w) := frame_body room' bytes' in (e, b :: w)
      end
  end.

(** Result and destination of reading one frame off a stream that ends with
    the result code [code]. *)
Definition frame_of_stream (bytes : list Z) (code : Z) (length : Z)
    (buffer : list Z) : Z * list Z :=
  match after_response bytes with
  | None => (code, buffer)
  | Some body =>
      let '(e, w) := frame_body (Z.to_nat length) body in
      (match e with
       | Terminated => Z.of_nat (List.length w) - 1
       | Filled => length
       | Starved => code
       end,
       overwrite buffer 0 w)
  end.

End Frames.

(** What is left of the stream behind a frame body taken into [room]
    places: the bytes after the end-of-message marker, or after the [room]
    bytes that filled the destination. *)
Fixpoint frame_rest (REMOTE_EOM : Z) (room : nat) (bytes : list Z) : list Z :=
  match room with
  | O => bytes
  | S room' =>
      match bytes with
      | [] => []
      | b :: bytes' =>
          if b =? REMOTE_EOM then bytes' else frame_rest REMOTE_EOM room' bytes'
      end
  end.

(** What a read leaves of the connection state: the descriptor, and either
    a buffer that holds data or the state as it was. *)
Definition state_kept (st st' : serial_state) : Prop :=
  fd st' = fd st /\ (0 < read_buffer_fullness st' \/ st' = st).

(** Result code of a frame body written from destination index [offset]. *)
Definition body_result (e : frame_end) (offset : Z) (w : list Z)
    (length code : Z) : Z :=
  match e with
  | Terminated => offset + Z.of_nat (List.length w) - 1
  | Filled => length
  | Starved => code
  end.

(** The payload among the bytes a frame body stores: all of them, the 0
    that replaces the marker apart. *)
Definition payload_of (e : frame_end) (w : list Z) : list Z :=
  match e with
  | Terminated => removelast w
  | _ => w
  end.

(** A byte sequence cut into the chunks successive reads deliver. *)
Definition chunks_okb (chunks : list (list Z)) : bool :=
  forallb (fun chunk => (0 <? Z.of_nat (length chunk))
                        && (Z.of_nat (length chunk) <=? READ_BUFFER_LENGTH))
          chunks.

(** ** The writer *)

(** Result of a function that can end the process with exit(). *)
Inductive completion (A : Type) : Type :=
| Completes (a : A)
| Exits (status : Z).
Arguments Completes {A} a.
Arguments Exits {A} status.

(** One call of write(fd, data, length). *)
Record write_call : Type := mkWrite {
  write_fd : Z;
  write_data : list Z;
  write_count : Z
}.

(** [platform_buffer_write(data, length)].  [sys_write] answers the write()
    call with its return value.  The result lists the write() calls made
    and gives the state afterwards. *)
Definition platform_buffer_write (sys_write : write_call -> Z)
    (data : list Z) (length : Z) (st : serial_state)
  : list write_call * completion bool * serial_state :=
  let call := mkWrite (fd st) data length in
  let written := sys_write call in
  if written <? 0 then ([call], Exits (-2), st)
  else ([call], Completes (size_t written =? length), st).

(** ** Strings *)

Definition cstring : Type := list ascii.

Definition cstr (s : string) : cstring := list_ascii_of_string s.

Definition strlen (s : cstring) : nat := length s.

(** [strrchr(s, c)] as the index of the last occurrence of [c]. *)
Fixpoint strrchr (s : cstring) (c : ascii) : option nat :=
  match s with
  | [] => None
  | x :: s' =>
      match strrchr s' c with
      | Some i => Some (S i)
      | None => if Ascii.eqb x c then Some O else None
      end
  end.

(** [strstr(s, ":")] as the index of the first colon. *)
Fixpoint strstr_colon (s : cstring) : option nat :=
  match s with
  | [] => None
  | x :: s' =>
      if Ascii.eqb x ":" then Some O
      else option_map S (strstr_colon s')
  end.

(** [memcmp(str, value, strlen(value)) == 0] on a string that is long
    enough: [value] is an initial part of [str]. *)
Fixpoint starts_with (value str : cstring) : bool :=
  match value, str with
  | [], _ => true
  | v :: value', x :: str' => Ascii.eqb v x && starts_with value' str'
  | _ :: _, [] => false
  end.

(** Modelled from the spec: [begins_with] of utils.c, which is not part of
    the sources ("enumerated names must start with one of a small fixed set
    of recognized identity-string prefixes"). *)
Definition begins_with (str : cstring) (str_length : nat) (value : cstring)
  : bool :=
  starts_with value (firstn str_length str).

(** Modelled from the spec: [ends_with] of utils.c, which is not part of the
    sources ("and end with an interface-suffix of the form -if00"). *)
Definition ends_with (str : cstring) (str_length : nat) (value : cstring)
  : bool :=
  (strlen value <=? str_length)%nat
  && starts_with value (skipn (str_length - strlen value) (firstn str_length str)).

(** [search] occurs in [str]. *)
Fixpoint occurs_in (search str : cstring) : bool :=
  starts_with search str
  || match str with
     | [] => false
     | _ :: str' => occurs_in search str'
     end.

(** Modelled from the spec: [contains_substring] of utils.c, which is not
    part of the sources ("testing whether the hint is a substring of that
    segment"): [search] occurs in the first [str_len] bytes of [str]. *)
Definition contains_substring (str : cstring) (str_len : Z) (search : cstring)
  : bool :=
  occurs_in search (firstn (Z.to_nat str_len) str).

(** ** Finding the probe *)

Definition BMP_IDSTRING_BLACKSPHERE : cstring :=
  cstr "usb-Black_Sphere_Technologies_Black_Magic_Probe".
Definition BMP_IDSTRING_BLACKMAGIC : cstring :=
  cstr "usb-Black_Magic_Debug_Black_Magic_Probe".
Definition BMP_IDSTRING_1BITSQUARED : cstring :=
  cstr "usb-1BitSquared_Black_Magic_Probe".
Definition DEVICE_BY_ID : cstring := cstr "/dev/serial/by-id/".

Definition INTERFACE_SUFFIX : cstring := cstr "-if00".

(** [sizeof(name)] for [char name[4096]] in [serial_open]. *)
Definition NAME_SIZE : nat := 4096.

(** The longest [d_name] a directory entry can hold. *)
Definition NAME_MAX : nat := 255.

Definition device_is_bmp_gdb_port (device : cstring) : bool :=
  let length := strlen device in
  if begins_with device length BMP_IDSTRING_BLACKSPHERE
     || begins_with device length BMP_IDSTRING_BLACKMAGIC
     || begins_with device length BMP_IDSTRING_1BITSQUARED
  then ends_with device length INTERFACE_SUFFIX
  else false.

(** [match_serial(device, serial)].  [begin] and [end] are offsets into
    [device]; their difference is passed on as a [size_t]. *)
Definition match_serial (device serial : cstring) : bool :=
  match strrchr device "_" with
  | None => false
  | Some last_underscore =>
      let begin := S last_underscore in
      let end_ := Z.of_nat (strlen device) - 5 in
      contains_substring (skipn begin device)
                         (size_t (end_ - Z.of_nat begin)) serial
  end.

(** Diagnostics printed by [serial_open] and its helpers. *)
Inductive message : Type :=
| No_serial_devices_found
| No_Black_Magic_Probes_found
| Available_Probes
| Probe_name (d_name : cstring)
| No_match_for_serial_number (serial : cstring)
| Select_probe_with_s
| Could_not_scan
| Couldnt_open_serial_port (name : cstring)
| Hostname_too_long
| Not_a_network_address
| Error_from_tcgetattr
| Error_from_tcsetattr.

(** The host as [serial_open] sees it. *)
Record host : Type := mkHost {
  (* opendir(DEVICE_BY_ID), and the d_name of the entries readdir() yields *)
  by_id : option (list cstring);
  (* open(name, O_RDWR | O_SYNC | O_NOCTTY) *)
  sys_open : cstring -> Z;
  (* getaddrinfo(hostname, service): for every address the descriptor
     socket() returns and whether connect() succeeds on it *)
  getaddrinfo : cstring -> cstring -> option (list (Z * bool));
  tcgetattr_ok : Z -> bool;
  tcsetattr_ok : Z -> bool
}.

(** The counters and the name buffer of the first directory scan. *)
Record probe_scan : Type := mkScan {
  matches : nat;
  total : nat;
  name : cstring
}.

(** The first [while (true)] loop of [serial_open] over the directory
    entries.  The counters cannot wrap: a directory has fewer than 2^64
    entries. *)
Fixpoint scan_entries (entries : list cstring) (serial : option cstring)
    (acc : probe_scan) : probe_scan :=
  match entries with
  | [] => acc
  | d_name :: entries' =>
      if device_is_bmp_gdb_port d_name then
        let total1 := S (total acc) in
        if match serial with
           | Some s => negb (match_serial d_name s)
           | None => false
           end
        then scan_entries entries' serial (mkScan (matches acc) total1 (name acc))
        else
          let path_len := strlen DEVICE_BY_ID in
          let name_len := strlen d_name in
          let truncated_len := Nat.min name_len (NAME_SIZE - path_len - 2) in
          scan_entries entries' serial
            (mkScan (S (matches acc)) total1
                    (DEVICE_BY_ID ++ firstn truncated_len d_name))
      else scan_entries entries' serial acc
  end.

(** The candidates of the resolution: the names that pass the identity
    filter and, if a serial hint was given, the serial filter. *)
Definition serial_accepts (serial : option cstring) (d_name : cstring) : bool :=
  match serial with
  | Some s => match_serial d_name s
  | None => true
  end.

Definition is_candidate (serial : option cstring) (d_name : cstring) : bool :=
  device_is_bmp_gdb_port d_name && serial_accepts serial d_name.

(** The path [serial_open] builds in [name] for a directory entry. *)
Definition device_path (d_name : cstring) : cstring :=
  DEVICE_BY_ID
  ++ firstn (Nat.min (strlen d_name) (NAME_SIZE - strlen DEVICE_BY_ID - 2))
            d_name.

(** How the first part of [serial_open] ends: with the name to open, or
    with [return false] after the given diagnostics. *)
Inductive resolution : Type :=
| Resolved (name : cstring)
| Unresolved (log : list message).

(** [serial_open] up to the comment "Reset the read buffer": the choice of
    the device name.  The second opendir() sees the same directory as the
    first. *)
Definition resolve_device (h : host) (opt_device serial : option cstring)
  : resolution :=
  match opt_device with
  | None =>
      match by_id h with
      | None => Unresolved [No_serial_devices_found]
      | Some entries =>
          let s := scan_entries entries serial (mkScan 0 0 []) in
          if (total s =? 0)%nat then Unresolved [No_Black_Magic_Probes_found]
          else if negb (matches s =? 1)%nat then
            match by_id h with
            | Some entries2 =>
                Unresolved
                  (Available_Probes
                   :: map Probe_name (filter device_is_bmp_gdb_port entries2)
                   ++ [match serial with
                       | Some s => No_match_for_serial_number s
                       | None => Select_probe_with_s
                       end])
            | None => Unresolved [Available_Probes; Could_not_scan]
            end
          else Resolved (name s)
      end
  | Some device =>
      let path_len := strlen device in
      let truncated_len := Nat.min path_len (NAME_SIZE - 1) in
      Resolved (firstn truncated_len device)
  end.

(** The loop of [try_opening_network_device] over the addresses. *)
Fixpoint connect_first (results : list (Z * bool)) (st : serial_state)
  : bool * serial_state :=
  match results with
  | [] => (false, st)
  | (socket_fd, connected) :: results' =>
      let st1 := set_fd st socket_fd in
      if socket_fd =? -1 then connect_first results' st1
      else if negb connected then connect_first results' st1
      else (true, st1)
  end.

(** [try_opening_network_device(name)].  A name of exactly 255 characters
    is copied by strncpy() without its terminator into [hostname], whose
    last byte was never written: the model gives [Undefined] there. *)
Definition try_opening_network_device (h : host) (name : cstring)
    (st : serial_state) : outcome (bool * serial_state * list message) :=
  if (256 <=? strlen name)%nat then Returned (false, st, [Hostname_too_long])
  else if (strlen name =? 255)%nat then Undefined
  else
    match strstr_colon name with
    | None => Returned (false, st, [Not_a_network_address])
    | Some colon =>
        let hostname := firstn colon name in
        let service_name := skipn (S colon) name in
        match service_name with
        | [] => Returned (false, st, [])
        | _ :: _ =>
            match getaddrinfo h hostname service_name with
            | None => Returned (false, st, [])
            | Some results =>
                let '(ok, st1) := connect_first results st in
                Returned (ok, st1, [])
            end
        end
    end.

(** [set_interface_attribs()]. *)
Definition set_interface_attribs (h : host) (st : serial_state)
  : bool * list message :=
  if negb (tcgetattr_ok h (fd st)) then (false, [Error_from_tcgetattr])
  else if negb (tcsetattr_ok h (fd st)) then (false, [Error_from_tcsetattr])
  else (true, []).

(** [serial_open(cl_opts, serial)], the variant for hosts other than macOS.
    [opt_device] is [cl_opts->opt_device]. *)
Definition serial_open (h : host) (opt_device serial : option cstring)
    (st : serial_state) : outcome (bool * serial_state * list message) :=
  match resolve_device h opt_device serial with
  | Unresolved log => Returned (false, st, log)
  | Resolved name =>
      (* Reset the read buffer before opening the target BMP *)
      let st1 := mkSerial (fd st) (read_buffer st) 0 0 in
      let st2 := set_fd st1 (sys_open h name) in
      if fd st2 <? 0 then
        match try_opening_network_device h name st2 with
        | Returned (true, st3, log) => Returned (true, st3, log)
        | Returned (false, st3, log) =>
            Returned (false, st3, log ++ [Couldnt_open_serial_port name])
        | Undefined => Undefined
        | OutOfFuel => OutOfFuel
        end
      else
        let '(ok, log) := set_interface_attribs h st2 in
        Returned (ok, st2, log)
  end.

(** [serial_close()]: close(fd); the statics stay as they are. *)
Definition serial_close (st : serial_state) : serial_state := st.

(** An address the loop of [try_opening_network_device] stops at: socket()
    gave a descriptor and connect() succeeded. *)
Definition usable_address (r : Z * bool) : bool :=
  negb (fst r =? -1) && snd r.

(** ** The macOS variant of [serial_open] *)

(** Its diagnostics: one of its own, and those of the helpers. *)
Inductive macos_message : Type :=
| No_serial_device_found
| Common (m : message).

(** The name the macOS variant opens.  sprintf() writes the device name
    built from the serial number and its terminator into [name]; strncpy()
    copies at most [sizeof(name) - 1] characters into [name], which was
    never set, and terminates the copy only if the path is shorter. *)
Definition macos_device_name (opt_device serial : option cstring)
  : outcome (option cstring) :=
  match opt_device with
  | None =>
      match serial with
      | None => Returned None
      | Some s =>
          let text := cstr "/dev/cu.usbmodem" ++ s ++ cstr "1" in
          if (strlen text <? NAME_SIZE)%nat then Returned (Some text)
          else Undefined
      end
  | Some device =>
      if (strlen device <? NAME_SIZE - 1)%nat then Returned (Some device)
      else Undefined
  end.

(** [serial_open(cl_opts, serial)] under [#ifdef __APPLE__]. *)
Definition serial_open_macos (h : host) (opt_device serial : option cstring)
    (st : serial_state) : outcome (bool * serial_state * list macos_message) :=
  match macos_device_name opt_device serial with
  | Undefined => Undefined
  | OutOfFuel => OutOfFuel
  | Returned None => Returned (false, st, [No_serial_device_found])
  | Returned (Some name) =>
      let st1 := set_fd st (sys_open h name) in
      if fd st1 <? 0 then
        match try_opening_network_device h name st1 with
        | Returned (true, st2, log) => Returned (true, st2, map Common log)
        | Returned (false, st2, log) =>
            Returned (false, st2,
                      map Common (log ++ [Couldnt_open_serial_port name]))
        | Undefined => Undefined
        | OutOfFuel => OutOfFuel
        end
      else
        let '(ok, log) := set_interface_attribs h st1 in
        Returned (ok, st1, map Common log)
  end.

(** ** The terminal attributes *)

(** The fields of [struct termios] that [set_interface_attribs] uses. *)
Record termios : Type := mkTermios {
  c_iflag : Z;
  c_oflag : Z;
  c_cflag : Z;
  c_lflag : Z;
  c_cc : nat -> Z
}.

(** [cc[i] = v] *)
Definition set_cc (cc : nat -> Z) (i : nat) (v : Z) : nat -> Z :=
  fun j => if (j =? i)%nat then v else cc j.

Section Termios.

(** The flag masks and indices of termios.h, a header of the host. *)
Variables CSIZE CS8 IGNBRK IXON IXOFF IXANY CLOCAL CREAD CSTOPB : Z.
(** [CRTSCTS] where the host defines it ([#if defined(CRTSCTS)]). *)
Variable CRTSCTS : option Z.
Variables VMIN VTIME : nat.

(** The assignments of [set_interface_attribs] between tcgetattr() and
    tcsetattr(): from the attributes the terminal has to the ones it is
    given. *)
Definition interface_attribs (tty : termios) : termios :=
  let cflag1 := Z.lor (Z.land (c_cflag tty) (Z.lnot CSIZE)) CS8 in
  let iflag1 := Z.land (c_iflag tty) (Z.lnot IGNBRK) in
  let lflag1 := 0 in
  let oflag1 := 0 in
  let cc1 := set_cc (c_cc tty) VMIN 0 in
  let cc2 := set_cc cc1 VTIME 5 in
  let iflag2 := Z.land iflag1 (Z.lnot (Z.lor (Z.lor IXON IXOFF) IXANY)) in
  let cflag2 := Z.lor cflag1 (Z.lor CLOCAL CREAD) in
  let cflag3 := Z.land cflag2 (Z.lnot CSTOPB) in
  let cflag4 :=
    match CRTSCTS with
    | Some mask => Z.land cflag3 (Z.lnot mask)
    | None => cflag3
    end in
  mkTermios iflag2 oflag1 cflag4 lflag1 cc2.

End Termios.

(** The masks and indices of a Linux host (asm-generic/termbits.h). *)
Definition linux_interface_attribs : termios -> termios :=
  interface_attribs 48 48 1 1024 4096 2048 2048 128 64 (Some 2147483648)
                    6 5.

(** A probe name as udev writes it. *)
Definition PROBE_8BB20A03 : cstring :=
  cstr "usb-Black_Magic_Debug_Black_Magic_Probe_v1.10.0_8BB20A03-if00".

Definition PROBE_72AE1B04 : cstring :=
  cstr "usb-1BitSquared_Black_Magic_Probe_v1.9.1_72AE1B04-if00".

Definition SERIAL_ADAPTER : cstring :=
  cstr "usb-FTDI_TTL232R-3V3_FTBDBIQ7-if00-port0".

(** Two probes are plugged in next to a serial adapter; nothing opens. *)
Definition two_probes_host : host :=
  mkHost (Some [SERIAL_ADAPTER; PROBE_8BB20A03; PROBE_72AE1B04])
         (fun _ => -1) (fun _ _ => None) (fun _ => false) (fun _ => false).

(** A host on which neither the device nor a network address opens. *)
Definition unreachable_host : host :=
  mkHost None (fun _ => -1) (fun _ _ => None) (fun _ => false) (fun _ => false).

(** A host on which the device opens as descriptor 3 and takes the
    terminal settings. *)
Definition local_host : host :=
  mkHost None (fun _ => 3) (fun _ _ => None) (fun _ => true) (fun _ => true).

(** A connection with seven bytes in the buffer, two of them consumed. *)
Definition state_with_data : serial_state :=
  mkSerial 3 (read_buffer initial_state) 7 2.

(** The same directory, listed in the opposite order. *)
Definition two_probes_host_reversed : host :=
  mkHost (Some [PROBE_72AE1B04; PROBE_8BB20A03; SERIAL_ADAPTER])
         (fun _ => -1) (fun _ _ => None) (fun _ => false) (fun _ => false).

(** A host without the device, on which "localhost" resolves to four
    addresses: no socket for the first, no connection on the second, and
    the third and fourth connect. *)
Definition network_host : host :=
  mkHost None (fun _ => -1)
         (fun _ _ => Some [(-1, false); (5, false); (7, true); (9, true)])
         (fun _ => false) (fun _ => false).

(** The attributes of a terminal in its usual line mode on Linux. *)
Definition cooked_tty : termios :=
  mkTermios 1280 5 1215 35387 (fun _ => 3).

(** * Properties *)

(** ** Machine integers and arrays *)

(** Linear arithmetic with the constants of the program unfolded. *)
Ltac bounds := unfold INT_MAX, READ_BUFFER_LENGTH in *; lia.

Lemma size_t_small (x : Z) : 0 <= x < 2 ^ 64 -> size_t x = x.
Proof. intros H. unfold size_t. apply Z.mod_small. exact H. Qed.

Lemma int_of_small (x : Z) : - 2 ^ 31 <= x <= INT_MAX -> int_of x = x.
Proof.
  intros H. unfold int_of, INT_MAX in *.
  rewrite Z.mod_small; lia.
Qed.

Lemma load_Z (a : list Z) (i : Z) :
  0 <= i -> load a i = nth_error a (Z.to_nat i).
Proof.
  intros H. unfold load.
  destruct (Z.leb_spec 0 i); [|lia].
  destruct (Z.ltb_spec i (Z.of_nat (length a))); [reflexivity|].
  symmetry. apply nth_error_None. lia.
Qed.

Lemma skipn_cons_nth_error {A} (l : list A) (n : nat) :
  (n < length l)%nat ->
  exists x, nth_error l n = Some x /\ skipn n l = x :: skipn (S n) l.
Proof.
  revert l. induction n as [|n IH]; intros [|y l] H; simpl in *; try lia.
  - eauto.
  - apply IH. lia.
Qed.

(** ** The pending bytes of a well-formed buffer *)

Lemma buffer_okb_spec (st : serial_state) : buffer_okb st = true <-> buffer_ok st.
Proof.
  unfold buffer_okb, buffer_ok, cursors_ok.
  rewrite !andb_true_iff, !Z.leb_le, Z.eqb_eq. tauto.
Qed.

Lemma initial_state_ok : buffer_ok initial_state.
Proof. apply buffer_okb_spec. vm_compute. reflexivity. Qed.

Lemma pending_length (st : serial_state) :
  buffer_ok st ->
  Z.of_nat (length (pending st)) = read_buffer_fullness st - read_buffer_offset st.
Proof.
  intros [(H0 & H1 & H2) HL]. unfold pending.
  rewrite length_firstn, length_skipn. unfold READ_BUFFER_LENGTH in *. lia.
Qed.

Lemma pending_empty (st : serial_state) :
  buffer_ok st -> read_buffer_offset st = read_buffer_fullness st -> pending st = [].
Proof.
  intros Hok E. apply length_zero_iff_nil.
  pose proof (pending_length st Hok). lia.
Qed.

Lemma pending_cons (st : serial_state) :
  buffer_ok st -> read_buffer_offset st < read_buffer_fullness st ->
  exists b,
    load (read_buffer st) (read_buffer_offset st) = Some b
    /\ pending st = b :: pending (set_offset st (read_buffer_offset st + 1))
    /\ buffer_ok (set_offset st (read_buffer_offset st + 1)).
Proof.
  intros [(H0 & H1 & H2) HL] Hlt.
  destruct (skipn_cons_nth_error (read_buffer st) (Z.to_nat (read_buffer_offset st)))
    as (b & Hn & Hs); [unfold READ_BUFFER_LENGTH in *; lia|].
  exists b. split; [|split].
  - rewrite load_Z by lia. exact Hn.
  - unfold pending. simpl. rewrite Hs.
    replace (Z.to_nat (read_buffer_fullness st - read_buffer_offset st))
      with (S (Z.to_nat (read_buffer_fullness st - (read_buffer_offset st + 1))))
      by lia.
    simpl. f_equal. f_equal.
    replace (Z.to_nat (read_buffer_offset st + 1))
      with (S (Z.to_nat (read_buffer_offset st))) by lia.
    reflexivity.
  - unfold buffer_ok, cursors_ok. simpl. lia.
Qed.

Lemma set_offset_set_offset (st : serial_state) (a b : Z) :
  set_offset (set_offset st a) b = set_offset st b.
Proof. reflexivity. Qed.

Lemma set_offset_same (st : serial_state) :
  set_offset st (read_buffer_offset st) = st.
Proof. destruct st; reflexivity. Qed.

Lemma pending_skipn (st : serial_state) (k : Z) :
  buffer_ok st -> 0 <= k <= read_buffer_fullness st - read_buffer_offset st ->
  skipn (Z.to_nat k) (pending st) = pending (set_offset st (read_buffer_offset st + k))
  /\ buffer_ok (set_offset st (read_buffer_offset st + k)).
Proof.
  intros [(H0 & H1 & H2) HL] Hk. split.
  - unfold pending. simpl.
    rewrite skipn_firstn_comm, skipn_skipn.
    f_equal; [lia|]. f_equal. lia.
  - unfold buffer_ok, cursors_ok. simpl. lia.
Qed.

Lemma pending_firstn (st : serial_state) (k : Z) :
  buffer_ok st -> 0 <= k <= read_buffer_fullness st - read_buffer_offset st ->
  firstn (Z.to_nat k) (skipn (Z.to_nat (read_buffer_offset st)) (read_buffer st))
  = firstn (Z.to_nat k) (pending st).
Proof.
  intros _ Hk. unfold pending. rewrite firstn_firstn. f_equal. lia.
Qed.

(** ** Refilling *)

Lemma incoming_data (chunk : list Z) (io : list transport_response) :
  incoming (ReadData chunk :: io)
  = (chunk ++ fst (incoming io), snd (incoming io)).
Proof. simpl. destruct (incoming io). reflexivity. Qed.

Lemma pending_after_read (st : serial_state) (chunk : list Z) :
  buffer_ok st ->
  0 < Z.of_nat (length chunk) <= READ_BUFFER_LENGTH ->
  let st1 := mkSerial (fd st) (chunk ++ skipn (length chunk) (read_buffer st))
                      (Z.of_nat (length chunk)) 0 in
  buffer_ok st1 /\ pending st1 = chunk.
Proof.
  intros [(H0 & H1 & H2) HL] Hc st1. split.
  - unfold buffer_ok, cursors_ok, st1. simpl.
    rewrite length_app, length_skipn. unfold READ_BUFFER_LENGTH in *. lia.
  - unfold pending, st1. simpl.
    rewrite Z.sub_0_r, Nat2Z.id, firstn_app, Nat.sub_diag, firstn_all.
    simpl. apply app_nil_r.
Qed.

Lemma refill_if_empty_spec (st : serial_state) (io : list transport_response) :
  buffer_ok st -> responses_okb io = true ->
  forall result st1 io1, refill_if_empty st io = (result, st1, io1) ->
    (result < 0 /\ result = failure io /\ stream st io = [] /\ st1 = st)
    \/ (result = 0 /\ buffer_ok st1 /\ responses_okb io1 = true
        /\ read_buffer_offset st1 < read_buffer_fullness st1
        /\ stream st1 io1 = stream st io /\ failure io1 = failure io
        /\ fd st1 = fd st).
Proof.
  intros Hok Hio result st1 io1. unfold refill_if_empty.
  destruct (Z.eqb_spec (read_buffer_offset st) (read_buffer_fullness st)) as [E|E].
  - pose proof (pending_empty st Hok E) as Hp.
    unfold stream, failure. rewrite Hp.
    destruct io as [|[| | |chunk] io']; simpl; intros [= <- <- <-];
      try (left; repeat split; lia).
    right. simpl in Hio. apply andb_true_iff in Hio as [Hc Hio'].
    apply andb_true_iff in Hc as [Hc1 Hc2].
    apply Z.ltb_lt in Hc1. apply Z.leb_le in Hc2.
    destruct (pending_after_read st chunk Hok (conj Hc1 Hc2)) as [Hok1 Hp1].
    rewrite Hp1. destruct (incoming io') as [bytes code]. simpl.
    repeat split; try assumption; try reflexivity; apply Hok1.
  - intros [= <- <- <-]. right.
    destruct Hok as [(H0 & H1 & H2) HL].
    repeat split; try assumption; try reflexivity; lia.
Qed.

Lemma state_kept_refl (st : serial_state) : state_kept st st.
Proof. split; auto. Qed.

Lemma state_kept_here (st st1 : serial_state) (x : Z) :
  fd st1 = fd st -> 0 < read_buffer_fullness st1 ->
  state_kept st (set_offset st1 x).
Proof. intros Hfd Hpos. split; simpl; auto. Qed.

Lemma state_kept_step (st st1 st' : serial_state) (x : Z) :
  fd st1 = fd st -> 0 < read_buffer_fullness st1 ->
  state_kept (set_offset st1 x) st' -> state_kept st st'.
Proof.
  intros Hfd Hpos [Hfd' [H | ->]]; split; simpl in *; auto; congruence.
Qed.

Lemma state_kept_trans (st st1 st2 : serial_state) :
  state_kept st st1 -> state_kept st1 st2 -> state_kept st st2.
Proof.
  intros [Hfd1 H1] [Hfd2 [H2 | ->]]; split; auto; congruence.
Qed.

Section ReaderFacts.

Variable REMOTE_RESP : Z.
Variable REMOTE_EOM : Z.

(** The first loop discards the stream up to and including the first
    start-of-response marker, or returns the failure that ends the stream. *)
Lemma drain_to_response_stream :
  forall (fuel : nat) (response : Z) (st : serial_state)
         (io : list transport_response),
    buffer_ok st -> responses_okb io = true ->
    (length (stream st io) < fuel)%nat ->
    response <> REMOTE_RESP ->
    match after_response REMOTE_RESP (stream st io) with
    | None =>
        exists st' io',
          drain_to_response REMOTE_RESP fuel response st io
          = Returned (Return (failure io), st', io')
          /\ buffer_ok st' /\ state_kept st st'
    | Some body =>
        exists st' io',
          drain_to_response REMOTE_RESP fuel response st io
          = Returned (Next, st', io')
          /\ buffer_ok st' /\ responses_okb io' = true
          /\ stream st' io' = body /\ failure io' = failure io
          /\ state_kept st st'
    end.
Proof.
  induction fuel as [|fuel IH]; intros response st io Hok Hio Hfuel Hresp;
    [inversion Hfuel|].
  cbn [drain_to_response].
  destruct (Z.eqb_spec response REMOTE_RESP) as [|_]; [contradiction|].
  destruct (refill_if_empty st io) as [[result st1] io1] eqn:ER.
  destruct (refill_if_empty_spec st io Hok Hio _ _ _ ER)
    as [(Hneg & Hres & Hs & Hst) | (Hres & Hok1 & Hio1 & Hlt & Hs & Hf & Hfd)].
  - rewrite Hs. simpl. destruct (Z.ltb_spec result 0); [|lia].
    subst. exists st, io1. auto using state_kept_refl.
  - subst result. simpl (0 <? 0).
    destruct (pending_cons st1 Hok1 Hlt) as (b & Hload & Hp & Hok2).
    rewrite Hload, <- Hs.
    destruct Hok1 as [(H0 & H1 & H2) HL].
    assert (Hpos : 0 < read_buffer_fullness st1) by lia.
    rewrite size_t_small by bounds.
    set (st2 := set_offset st1 (read_buffer_offset st1 + 1)) in *.
    assert (Hs2 : stream st1 io1 = b :: stream st2 io1)
      by (unfold stream; rewrite Hp; reflexivity).
    rewrite Hs2. simpl.
    destruct (Z.eqb_spec b REMOTE_RESP) as [Eb|Eb].
    + exists st2, io1. subst b.
      assert (Hk : state_kept st st2) by (apply state_kept_here; assumption).
      destruct fuel; simpl; rewrite Z.eqb_refl; auto 10.
    + assert (Hfuel2 : (length (stream st2 io1) < fuel)%nat)
        by (rewrite <- Hs, Hs2 in Hfuel; simpl in Hfuel; lia).
      specialize (IH b st2 io1 Hok2 Hio1 Hfuel2 Eb).
      destruct (after_response REMOTE_RESP (stream st2 io1)) as [body|].
      * destruct IH as (st' & io' & Hrun & Hok' & Hio' & Hbody & Hf' & Hk).
        exists st', io'. rewrite Hrun.
        apply (state_kept_step st st1 st' _ Hfd Hpos) in Hk.
        rewrite Hf' in *. auto 10.
      * destruct IH as (st' & io' & Hrun & Hok' & Hk).
        exists st', io'. rewrite Hrun.
        apply (state_kept_step st st1 st' _ Hfd Hpos) in Hk.
        rewrite Hf in *. auto.
Qed.

End ReaderFacts.

(** ** Storing into the destination *)

Lemma overwrite_length (a : list Z) (o : nat) (c : list Z) :
  (o + length c <= length a)%nat -> length (overwrite a o c) = length a.
Proof.
  intros H. unfold overwrite.
  rewrite !length_app, length_firstn, length_skipn. lia.
Qed.

Lemma overwrite_nil (a : list Z) (o : nat) : overwrite a o [] = a.
Proof.
  unfold overwrite. simpl. rewrite Nat.add_0_r. apply firstn_skipn.
Qed.

Lemma overwrite_app (a : list Z) (o : nat) (c w : list Z) :
  (o + length c <= length a)%nat ->
  overwrite (overwrite a o c) (o + length c) w = overwrite a o (c ++ w).
Proof.
  intros H. unfold overwrite at 1 3.
  assert (HA : length (firstn o a) = o) by (rewrite length_firstn; lia).
  assert (E1 : firstn (o + length c) (overwrite a o c) = firstn o a ++ c).
  { unfold overwrite. rewrite app_assoc.
    rewrite firstn_app.
    replace (o + length c - length (firstn o a ++ c))%nat with 0%nat
      by (rewrite length_app; lia).
    rewrite firstn_all2 by (rewrite length_app; lia).
    simpl. apply app_nil_r. }
  assert (E2 : skipn (o + length c + length w) (overwrite a o c)
               = skipn (o + length (c ++ w)) a).
  { unfold overwrite. rewrite app_assoc.
    rewrite skipn_app.
    rewrite skipn_all2 by (rewrite length_app; lia).
    rewrite length_app, HA. simpl.
    rewrite skipn_skipn. f_equal. rewrite length_app. lia. }
  rewrite E1, E2, <- !app_assoc. reflexivity.
Qed.

Lemma overwrite_last_nth (a : list Z) (o : nat) (c : list Z) (x : Z) :
  nth_error (overwrite a o (c ++ [x])) (length (firstn o a) + length c) = Some x.
Proof.
  unfold overwrite.
  rewrite nth_error_app2 by lia.
  replace (length (firstn o a) + length c - length (firstn o a))%nat
    with (length c) by lia.
  rewrite <- app_assoc. rewrite nth_error_app2 by lia.
  rewrite Nat.sub_diag. reflexivity.
Qed.

Lemma store_middle (l1 l2 : list Z) (x v : Z) :
  store (l1 ++ x :: l2) (Z.of_nat (length l1)) v = Some (l1 ++ v :: l2).
Proof.
  unfold store. rewrite length_app. cbn [length].
  destruct (Z.leb_spec 0 (Z.of_nat (length l1))); [|lia].
  destruct (Z.ltb_spec (Z.of_nat (length l1))
                       (Z.of_nat (length l1 + S (length l2)))); [|lia].
  cbn [andb]. rewrite Nat2Z.id. f_equal. f_equal.
  - rewrite firstn_app, Nat.sub_diag, firstn_all. cbn [firstn]. apply app_nil_r.
  - f_equal. change (S (length l1)) with (1 + length l1)%nat.
    rewrite <- skipn_skipn, skipn_app, Nat.sub_diag, skipn_all.
    reflexivity.
Qed.

Lemma overwrite_last_store (a : list Z) (o : nat) (c : list Z) (x v : Z) :
  (o <= length a)%nat ->
  store (overwrite a o (c ++ [x])) (Z.of_nat (o + length c)) v
  = Some (overwrite a o (c ++ [v])).
Proof.
  intros H.
  assert (HA : length (firstn o a) = o) by (rewrite length_firstn; lia).
  unfold overwrite. rewrite !length_app. cbn [length].
  rewrite <- !(app_assoc c), !(app_assoc (firstn o a) c). cbn [app].
  replace (o + length c)%nat with (length (firstn o a ++ c))
    by (rewrite length_app; lia).
  apply store_middle.
Qed.

Lemma memcpy_overwrite (dst : list Z) (d : Z) (src : list Z) (s n : Z) :
  0 <= d -> 0 <= s -> 0 < n ->
  d + n <= Z.of_nat (length dst) -> s + n <= Z.of_nat (length src) ->
  memcpy dst d src s n
  = Some (overwrite dst (Z.to_nat d)
                    (firstn (Z.to_nat n) (skipn (Z.to_nat s) src))).
Proof.
  intros Hd Hs Hn Hdst Hsrc. unfold memcpy.
  destruct (Z.eqb_spec n 0); [lia|].
  destruct (Z.leb_spec 0 d); [|lia].
  destruct (Z.leb_spec 0 s); [|lia].
  destruct (Z.ltb_spec 0 n); [|lia].
  destruct (Z.leb_spec (d + n) (Z.of_nat (length dst))); [|lia].
  destruct (Z.leb_spec (s + n) (Z.of_nat (length src))); [|lia].
  cbn [andb]. unfold overwrite.
  replace (Z.to_nat d
           + length (firstn (Z.to_nat n) (skipn (Z.to_nat s) src)))%nat
    with (Z.to_nat (d + n)); [reflexivity|].
  rewrite length_firstn, length_skipn. lia.
Qed.

(** ** One pass of the scan *)

Section ScanFacts.

Variable REMOTE_EOM : Z.

Lemma scan_chunk_prefix (room : nat) (p c : list Z) (found : bool) :
  scan_chunk REMOTE_EOM room p = (c, found) ->
  c = firstn (length c) p /\ (length c <= room)%nat /\ (length c <= length p)%nat.
Proof.
  revert p c found. induction room as [|room IH]; intros [|b p] c found;
    cbn [scan_chunk]; try (intros [= <- <-]; simpl; repeat split; lia).
  destruct (b =? REMOTE_EOM).
  - intros [= <- <-]. simpl. repeat split; lia.
  - destruct (scan_chunk REMOTE_EOM room p) as [c0 f0] eqn:E.
    intros [= <- <-]. destruct (IH _ _ _ E) as (H1 & H2 & H3).
    simpl. repeat split; try lia. f_equal. exact H1.
Qed.

Lemma scan_chunk_nonempty (room : nat) (b : Z) (p c : list Z) (found : bool) :
  scan_chunk REMOTE_EOM (S room) (b :: p) = (c, found) -> c <> [].
Proof.
  cbn [scan_chunk]. destruct (b =? REMOTE_EOM).
  - intros [= <- <-]. discriminate.
  - destruct (scan_chunk REMOTE_EOM room p). intros [= <- <-]. discriminate.
Qed.

Lemma scan_chunk_nil_found (room : nat) (p : list Z) (found : bool) :
  scan_chunk REMOTE_EOM room p = ([], found) -> found = false.
Proof.
  destruct room as [|room]; destruct p as [|b p]; cbn [scan_chunk];
    try (intros [= <-]; reflexivity).
  destruct (b =? REMOTE_EOM); [discriminate|].
  destruct (scan_chunk REMOTE_EOM room p). discriminate.
Qed.

(** The pass stopped on a marker exactly when the last byte it selected is
    one; the bytes before the last are never markers. *)
Lemma scan_chunk_last (room : nat) (p c : list Z) (x : Z) (found : bool) :
  scan_chunk REMOTE_EOM room p = (c ++ [x], found) ->
  found = (x =? REMOTE_EOM) /\ Forall (fun b => b <> REMOTE_EOM) c.
Proof.
  revert p c found. induction room as [|room IH]; intros [|b p] c found;
    cbn [scan_chunk]; try (intros [= H _]; destruct c; discriminate H).
  destruct (Z.eqb_spec b REMOTE_EOM) as [Eb|Eb].
  - intros [= H <-]. destruct c as [|y [|z c]]; try discriminate H.
    injection H as Hb. subst x. split; [|constructor].
    symmetry. apply Z.eqb_eq. exact Eb.
  - destruct (scan_chunk REMOTE_EOM room p) as [c0 f0] eqn:E.
    intros [= H <-]. destruct c as [|y c].
    + simpl in H. injection H as Hb Hc. subst b c0.
      apply scan_chunk_nil_found in E. subst f0. split; [|constructor].
      symmetry. apply Z.eqb_neq. exact Eb.
    + simpl in H. injection H as Hb Hc. subst y c0.
      destruct (IH _ _ _ E) as [H1 H2]. split; [exact H1|].
      constructor; assumption.
Qed.

(** A pass that stops on a marker ends the frame body. *)
Lemma frame_body_scan_found (room : nat) (p more c : list Z) (x : Z) :
  scan_chunk REMOTE_EOM room p = (c ++ [x], true) ->
  frame_body REMOTE_EOM room (p ++ more) = (Terminated, c ++ [0]).
Proof.
  revert p c. induction room as [|room IH]; intros [|b p] c;
    cbn [scan_chunk]; try discriminate.
  destruct (Z.eqb_spec b REMOTE_EOM) as [Eb|Eb].
  - intros [= H]. destruct c as [|y [|z c]]; try discriminate H.
    cbn [frame_body app].
    destruct (Z.eqb_spec b REMOTE_EOM); [reflexivity|contradiction].
  - destruct (scan_chunk REMOTE_EOM room p) as [c0 f0] eqn:E.
    intros [= H ->]. destruct c as [|y c].
    + simpl in H. injection H as Hb Hc. subst c0.
      apply scan_chunk_nil_found in E. discriminate.
    + simpl in H. injection H as Hb Hc. subst y c0.
      cbn [frame_body app].
      destruct (Z.eqb_spec b REMOTE_EOM); [contradiction|].
      rewrite (IH _ _ E). reflexivity.
Qed.

(** Any other pass is followed by the body of what is left. *)
Lemma frame_body_scan_more (room : nat) (p more c : list Z) :
  scan_chunk REMOTE_EOM room p = (c, false) ->
  frame_body REMOTE_EOM room (p ++ more)
  = let '(e, w) := frame_body REMOTE_EOM (room - length c)
                              (skipn (length c) p ++ more) in
    (e, c ++ w).
Proof.
  revert p c. induction room as [|room IH]; intros [|b p] c;
    cbn [scan_chunk];
    try (intros [= <-]; cbn [length skipn app]; rewrite ?Nat.sub_0_r;
         match goal with |- ?x = _ => destruct x end; reflexivity).
  destruct (Z.eqb_spec b REMOTE_EOM) as [Eb|Eb]; [discriminate|].
  destruct (scan_chunk REMOTE_EOM room p) as [c0 f0] eqn:E.
  intros [= <- ->].
  change (S room - length (b :: c0))%nat with (room - length c0)%nat.
  change (skipn (length (b :: c0)) (b :: p)) with (skipn (length c0) p).
  change ((b :: p) ++ more) with (b :: p ++ more).
  cbn [frame_body].
  destruct (Z.eqb_spec b REMOTE_EOM); [contradiction|].
  rewrite (IH _ _ E).
  destruct (frame_body REMOTE_EOM (room - length c0)
                       (skipn (length c0) p ++ more)).
  reflexivity.
Qed.

(** The inner loop of the collector computes the length of such a pass. *)
Lemma scan_for_eom_chunk (st : serial_state) (offset length : Z) :
  buffer_ok st -> 0 <= offset -> length < 2 ^ 64 ->
  forall (n : nat) (response_length : Z),
    0 <= response_length ->
    read_buffer_offset st + response_length <= read_buffer_fullness st ->
    offset + response_length <= length ->
    (Z.to_nat (read_buffer_fullness st - read_buffer_offset st - response_length)
     <= n)%nat ->
    scan_for_eom REMOTE_EOM n st offset length response_length
    = Returned
        (response_length
         + Z.of_nat
             (List.length
                (fst (scan_chunk REMOTE_EOM
                        (Z.to_nat (length - offset - response_length))
                        (pending (set_offset st (read_buffer_offset st
                                                 + response_length))))))).
Proof.
  intros Hok Ho HL n. induction n as [|n IH]; intros rl Hrl Hfull Hlen Hn.
  - cbn [scan_for_eom].
    assert (E : read_buffer_offset st + rl = read_buffer_fullness st) by lia.
    destruct Hok as [(H0 & H1 & H2) HA].
    rewrite !size_t_small by (unfold READ_BUFFER_LENGTH in *; lia).
    destruct (Z.ltb_spec (read_buffer_offset st + rl) (read_buffer_fullness st));
      [lia|].
    cbn [andb].
    rewrite (pending_empty (set_offset st (read_buffer_offset st + rl))).
    + destruct (Z.to_nat (length - offset - rl)); simpl; f_equal; lia.
    + unfold buffer_ok, cursors_ok. simpl. lia.
    + simpl. lia.
  - cbn [scan_for_eom].
    destruct (pending_skipn st rl Hok) as [_ Hok']; [lia|].
    pose proof Hok as [(H0 & H1 & H2) HA].
    rewrite !size_t_small by (unfold READ_BUFFER_LENGTH in *; lia).
    destruct (Z.ltb_spec (read_buffer_offset st + rl) (read_buffer_fullness st))
      as [Hlt|Hge].
    + destruct (Z.ltb_spec (offset + rl) length) as [Hlt2|Hge2]; cbn [andb].
      * destruct (pending_cons _ Hok') as (b & Hload & Hp & _);
          [simpl; lia|].
        simpl in Hload. rewrite Hload, Hp. simpl read_buffer_offset.
        rewrite set_offset_set_offset.
        replace (Z.to_nat (length - offset - rl))
          with (S (Z.to_nat (length - offset - (rl + 1)))) by lia.
        cbn [scan_chunk].
        destruct (Z.eqb_spec b REMOTE_EOM) as [Eb|Eb].
        -- simpl. f_equal.
        -- rewrite IH by lia.
           replace (read_buffer_offset st + rl + 1)
             with (read_buffer_offset st + (rl + 1)) by lia.
           destruct (scan_chunk REMOTE_EOM (Z.to_nat (length - offset - (rl + 1)))
                       (pending (set_offset st (read_buffer_offset st + (rl + 1)))))
             as [c f].
           simpl. f_equal. lia.
      * replace (Z.to_nat (length - offset - rl)) with 0%nat by lia.
        simpl. f_equal. lia.
    + cbn [andb].
      rewrite (pending_empty _ Hok') by (simpl; lia).
      destruct (Z.to_nat (length - offset - rl)); simpl; f_equal; lia.
Qed.

End ScanFacts.

(** ** The collector *)

Lemma failure_codes (io : list transport_response) :
  failure io = -3 \/ failure io = -4 \/ failure io = -6.
Proof.
  unfold failure. induction io as [|[| | |chunk] io IH]; simpl; auto.
  destruct (incoming io). exact IH.
Qed.

Lemma int_of_failure (io : list transport_response) :
  int_of (failure io) = failure io.
Proof.
  apply int_of_small. unfold INT_MAX.
  destruct (failure_codes io) as [-> | [-> | ->]]; lia.
Qed.

Section CollectFacts.

Variable REMOTE_EOM : Z.

Lemma collect_response_stream :
  forall (fuel : nat) (offset : Z) (buffer : list Z) (length : Z)
         (st : serial_state) (io : list transport_response),
    buffer_ok st -> responses_okb io = true ->
    0 <= offset <= length ->
    length <= Z.of_nat (List.length buffer) -> length <= INT_MAX ->
    (List.length (stream st io) < fuel)%nat ->
    forall (e : frame_end) (w : list Z),
      frame_body REMOTE_EOM (Z.to_nat (length - offset)) (stream st io) = (e, w) ->
      exists st' io',
        collect_response REMOTE_EOM fuel offset buffer length st io
        = Returned (body_result e offset w length (failure io),
                    overwrite buffer (Z.to_nat offset) w, st', io')
        /\ buffer_ok st' /\ state_kept st st'.
Proof.
  induction fuel as [|fuel IH];
    intros offset buffer length st io Hok Hio Ho HL Hint Hfuel e w Hbody;
    [inversion Hfuel|].
  cbn [collect_response].
  destruct (Z.ltb_spec offset length) as [Hlt|Hge].
  2:{ replace (Z.to_nat (length - offset)) with 0%nat in Hbody by bounds.
      injection Hbody as <- <-. exists st, io.
      rewrite overwrite_nil, int_of_small by bounds.
      auto using state_kept_refl. }
  destruct (refill_if_empty st io) as [[result st1] io1] eqn:ER.
  destruct (refill_if_empty_spec st io Hok Hio _ _ _ ER)
    as [(Hneg & Hres & Hs & Hst) | (Hres & Hok1 & Hio1 & Hne & Hs & Hf & Hfd)].
  { destruct (Z.ltb_spec result 0); [|lia].
    rewrite Hs in Hbody.
    replace (Z.to_nat (length - offset))
      with (S (Z.to_nat (length - offset - 1))) in Hbody by bounds.
    injection Hbody as <- <-. subst result st1.
    exists st, io1. rewrite overwrite_nil, int_of_failure.
    auto using state_kept_refl. }
  subst result. cbv beta iota. change (0 <? 0) with false. cbv iota.
  pose proof Hok1 as [(H0 & H1 & H2) HA].
  rewrite (scan_for_eom_chunk REMOTE_EOM st1 offset length Hok1)
    by bounds.
  rewrite Z.add_0_r, Z.sub_0_r, set_offset_same. cbn [Z.add].
  destruct (scan_chunk REMOTE_EOM (Z.to_nat (length - offset)) (pending st1))
    as [c found] eqn:Escan.
  cbn [fst].
  destruct (scan_chunk_prefix _ _ _ _ _ Escan) as (Hpre & Hroom & Hlen).
  pose proof (pending_length st1 Hok1) as Hpl.
  assert (Hc : c <> []).
  { destruct (pending st1) as [|b p] eqn:Ep; [simpl in Hpl; lia|].
    replace (Z.to_nat (length - offset))
      with (S (Z.to_nat (length - offset - 1))) in Escan by bounds.
    eapply scan_chunk_nonempty; eassumption. }
  destruct (exists_last Hc) as (c' & x & Ec). subst c.
  rewrite length_app in *. cbn [List.length] in *.
  rewrite memcpy_overwrite by bounds.
  rewrite pending_firstn by (try assumption; bounds).
  rewrite !Nat2Z.id, <- Hpre.
  rewrite (size_t_small (Z.of_nat (List.length c' + 1) - 1)) by bounds.
  rewrite (size_t_small (offset + (Z.of_nat (List.length c' + 1) - 1)))
    by bounds.
  rewrite (size_t_small (read_buffer_offset st1
                         + Z.of_nat (List.length c' + 1))) by bounds.
  destruct (pending_skipn st1 (Z.of_nat (List.length c' + 1)) Hok1)
    as [Hskip Hok2]; [bounds|].
  rewrite Nat2Z.id in Hskip.
  set (st2 := set_offset st1 (read_buffer_offset st1
                              + Z.of_nat (List.length c' + 1))) in *.
  assert (HoA : List.length (firstn (Z.to_nat offset) buffer) = Z.to_nat offset)
    by (rewrite length_firstn; bounds).
  rewrite load_Z by bounds.
  replace (Z.to_nat (offset + (Z.of_nat (List.length c' + 1) - 1)))
    with (List.length (firstn (Z.to_nat offset) buffer) + List.length c')%nat
    by bounds.
  rewrite overwrite_last_nth.
  destruct (scan_chunk_last _ _ _ _ _ _ Escan) as [Hfound _].
  rewrite <- Hs in Hbody. unfold stream in Hbody.
  destruct (Z.eqb_spec x REMOTE_EOM) as [Ex|Ex]; subst found.
  - rewrite (frame_body_scan_found _ _ _ _ _ _ Escan) in Hbody.
    injection Hbody as <- <-.
    replace (offset + (Z.of_nat (List.length c' + 1) - 1))
      with (Z.of_nat (Z.to_nat offset + List.length c')) by bounds.
    rewrite overwrite_last_store by bounds.
    exists st2, io1. rewrite int_of_small.
    + unfold body_result. rewrite length_app. cbn [List.length].
      replace (Z.of_nat (Z.to_nat offset + List.length c'))
        with (offset + Z.of_nat (List.length c' + 1) - 1) by bounds.
      split; [reflexivity|]. split; [apply Hok2|].
      apply state_kept_here; [exact Hfd|lia].
    + bounds.
  - rewrite (frame_body_scan_more _ _ _ _ _ Escan) in Hbody.
    rewrite length_app in Hbody. cbn [List.length] in Hbody.
    rewrite Hskip in Hbody.
    destruct (frame_body REMOTE_EOM
                (Z.to_nat (length - offset) - (List.length c' + 1))
                (pending st2 ++ fst (incoming io1))) as [e2 w2] eqn:E2.
    injection Hbody as <- <-.
    rewrite size_t_small by bounds.
    set (offset2 := offset + (Z.of_nat (List.length c' + 1) - 1) + 1).
    assert (Hfuel2 : (List.length (stream st2 io1) < fuel)%nat).
    { rewrite <- Hs in Hfuel. unfold stream in *.
      rewrite length_app in *. rewrite <- Hskip, length_skipn. lia. }
    assert (HL2 : length
                  <= Z.of_nat (List.length
                                 (overwrite buffer (Z.to_nat offset) (c' ++ [x])))).
    { rewrite overwrite_length; [bounds|].
      rewrite length_app. cbn [List.length]. lia. }
    assert (E2' : frame_body REMOTE_EOM (Z.to_nat (length - offset2))
                             (stream st2 io1) = (e2, w2)).
    { rewrite <- E2. unfold stream, offset2. f_equal. lia. }
    destruct (IH offset2 (overwrite buffer (Z.to_nat offset) (c' ++ [x]))
                 length st2 io1 Hok2 Hio1 ltac:(unfold offset2; lia)
                 HL2 Hint Hfuel2 e2 w2 E2')
      as (st' & io' & Hrun & Hok' & Hk).
    apply (state_kept_step st st1 st' _ Hfd ltac:(lia)) in Hk.
    exists st', io'. rewrite Hrun.
    replace (Z.to_nat offset2)
      with (Z.to_nat offset + List.length (c' ++ [x]))%nat
      by (rewrite length_app; cbn [List.length]; unfold offset2; lia).
    rewrite overwrite_app by (rewrite length_app; cbn [List.length]; lia).
    split; [|split; assumption].
    f_equal. f_equal. f_equal. f_equal.
    unfold body_result. destruct e2; try reflexivity; try congruence.
    rewrite !length_app. cbn [List.length]. unfold offset2. lia.
Qed.

End CollectFacts.

(** ** The iteration bound is never reached *)

Lemma iterations_Z (io : list transport_response) :
  Z.of_nat (iterations io)
  = (Z.of_nat (length io) + 1) * (READ_BUFFER_LENGTH + 1).
Proof.
  unfold iterations. rewrite Nat2Z.inj_mul, !Nat2Z.inj_succ, Z2Nat.id.
  - lia.
  - unfold READ_BUFFER_LENGTH. lia.
Qed.

Lemma incoming_length (io : list transport_response) :
  responses_okb io = true ->
  Z.of_nat (length (fst (incoming io)))
  <= READ_BUFFER_LENGTH * Z.of_nat (length io).
Proof.
  induction io as [|r io IH]; intros H.
  - simpl. bounds.
  - simpl in H. apply andb_true_iff in H as [Hr Hio]. specialize (IH Hio).
    destruct r as [| | |chunk]; try (simpl; bounds).
    rewrite incoming_data. cbn [fst length]. rewrite length_app.
    simpl in Hr. apply andb_true_iff in Hr as [_ Hr]. apply Z.leb_le in Hr.
    bounds.
Qed.

Lemma stream_shorter_than_iterations (st : serial_state)
    (io : list transport_response) :
  buffer_ok st -> responses_okb io = true ->
  (length (stream st io) < iterations io)%nat.
Proof.
  intros Hok Hio. apply Nat2Z.inj_lt. rewrite iterations_Z.
  unfold stream. rewrite length_app, Nat2Z.inj_add.
  pose proof (pending_length st Hok) as Hp.
  pose proof (incoming_length io Hio) as Hi.
  destruct Hok as [(H0 & H1 & H2) _]. bounds.
Qed.

(** ** [platform_buffer_read] against the byte stream *)

Section ReadFrame.

Variable REMOTE_RESP : Z.
Variable REMOTE_EOM : Z.

(** [char response = 0] enters the first loop only if the marker is not the
    NUL character. *)
Hypothesis RESP_not_NUL : REMOTE_RESP <> 0.

(** On a well-formed buffer and a transport whose reads deliver between 1
    and READ_BUFFER_LENGTH bytes, [platform_buffer_read] returns, and what it
    returns and leaves in the destination is determined by the byte stream
    alone. *)
Lemma platform_buffer_read_stream (buffer : list Z) (length : Z)
    (st : serial_state) (io : list transport_response) :
  buffer_ok st -> responses_okb io = true ->
  0 <= length <= Z.of_nat (List.length buffer) -> length <= INT_MAX ->
  exists st' io',
    platform_buffer_read REMOTE_RESP REMOTE_EOM buffer length st io
    = Returned (fst (frame_of_stream REMOTE_RESP REMOTE_EOM
                       (stream st io) (failure io) length buffer),
                snd (frame_of_stream REMOTE_RESP REMOTE_EOM
                       (stream st io) (failure io) length buffer),
                st', io')
    /\ buffer_ok st' /\ state_kept st st'.
Proof.
  intros Hok Hio HL Hint. unfold platform_buffer_read, frame_of_stream.
  pose proof (drain_to_response_stream REMOTE_RESP (iterations io) 0 st io
                Hok Hio (stream_shorter_than_iterations st io Hok Hio)
                (not_eq_sym RESP_not_NUL)) as Hdrain.
  destruct (after_response REMOTE_RESP (stream st io)) as [body|].
  - destruct Hdrain as (st1 & io1 & -> & Hok1 & Hio1 & Hbody & Hf & Hk1).
    destruct (frame_body REMOTE_EOM (Z.to_nat length) body) as [e w] eqn:E.
    destruct (collect_response_stream REMOTE_EOM (iterations io1) 0 buffer
                length st1 io1 Hok1 Hio1 ltac:(lia) ltac:(lia) Hint
                (stream_shorter_than_iterations st1 io1 Hok1 Hio1) e w)
      as (st' & io' & Hrun & Hok' & Hk').
    { rewrite Z.sub_0_r, Hbody. exact E. }
    exists st', io'. rewrite Hrun. cbn [fst snd].
    split; [|split; [exact Hok'|exact (state_kept_trans _ _ _ Hk1 Hk')]].
    rewrite Hf. unfold body_result. destruct e; reflexivity.
  - destruct Hdrain as (st1 & io1 & -> & Hok1 & Hk).
    exists st1, io1. rewrite int_of_failure. auto.
Qed.

End ReadFrame.

(** ** Shapes of streams *)

Section StreamShapes.

Variable REMOTE_RESP : Z.
Variable REMOTE_EOM : Z.

Lemma after_response_split (noise body : list Z) :
  ~ In REMOTE_RESP noise ->
  after_response REMOTE_RESP (noise ++ REMOTE_RESP :: body) = Some body.
Proof.
  induction noise as [|b noise IH]; intros Hn; simpl.
  - now rewrite Z.eqb_refl.
  - destruct (Z.eqb_spec b REMOTE_RESP) as [->|_].
    + exfalso. apply Hn. now left.
    + apply IH. intros H. apply Hn. now right.
Qed.

Lemma after_response_none (bytes : list Z) :
  ~ In REMOTE_RESP bytes -> after_response REMOTE_RESP bytes = None.
Proof.
  induction bytes as [|b bytes IH]; intros Hn; simpl; [reflexivity|].
  destruct (Z.eqb_spec b REMOTE_RESP) as [->|_].
  - exfalso. apply Hn. now left.
  - apply IH. intros H. apply Hn. now right.
Qed.

Lemma frame_body_filled (body rest : list Z) :
  ~ In REMOTE_EOM body ->
  frame_body REMOTE_EOM (length body) (body ++ rest) = (Filled, body).
Proof.
  induction body as [|b body IH]; intros Hn; simpl; [reflexivity|].
  destruct (Z.eqb_spec b REMOTE_EOM) as [->|_].
  - exfalso. apply Hn. now left.
  - rewrite IH; [reflexivity|]. intros H. apply Hn. now right.
Qed.

Lemma frame_body_terminated (room : nat) (payload rest : list Z) :
  ~ In REMOTE_EOM payload -> (length payload < room)%nat ->
  frame_body REMOTE_EOM room (payload ++ REMOTE_EOM :: rest)
  = (Terminated, payload ++ [0]).
Proof.
  revert room. induction payload as [|b payload IH]; intros room Hn Hroom.
  - destruct room; [inversion Hroom|]. simpl. now rewrite Z.eqb_refl.
  - destruct room; [inversion Hroom|]. simpl in *.
    destruct (Z.eqb_spec b REMOTE_EOM) as [->|_].
    + exfalso. apply Hn. now left.
    + rewrite IH; [reflexivity| |lia]. intros H. apply Hn. now right.
Qed.

(** The bytes a frame body stores are the first bytes of the stream. *)
Lemma frame_body_payload (room : nat) (bytes : list Z) (e : frame_end)
    (w : list Z) :
  frame_body REMOTE_EOM room bytes = (e, w) ->
  payload_of e w = firstn (length (payload_of e w)) bytes.
Proof.
  revert bytes e w. induction room as [|room IH]; intros bytes e w.
  - simpl. intros [= <- <-]. reflexivity.
  - destruct bytes as [|b bytes]; simpl.
    + intros [= <- <-]. reflexivity.
    + destruct (b =? REMOTE_EOM).
      * intros [= <- <-]. reflexivity.
      * destruct (frame_body REMOTE_EOM room bytes) as [e0 w0] eqn:E.
        intros [= <- <-]. specialize (IH _ _ _ E).
        destruct e0; simpl in *; try (f_equal; exact IH).
        destruct w0 as [|y w0]; [reflexivity|].
        simpl. f_equal. exact IH.
Qed.

End StreamShapes.

Lemma overwrite_from_start (a w : list Z) :
  overwrite a 0 w = w ++ skipn (length w) a.
Proof. reflexivity. Qed.

Lemma responses_of_chunks (chunks : list (list Z)) :
  responses_okb (map ReadData chunks) = chunks_okb chunks.
Proof.
  induction chunks as [|c chunks IH]; simpl; [reflexivity|].
  now rewrite IH.
Qed.

Lemma incoming_of_chunks (chunks : list (list Z)) :
  incoming (map ReadData chunks) = (concat chunks, -4).
Proof.
  induction chunks as [|c chunks IH]; [reflexivity|].
  cbn [map]. rewrite incoming_data, IH. reflexivity.
Qed.

(** * The properties of the specification *)

(** ** Reading one frame *)

Section ReadFrameClaims.

Variable REMOTE_RESP : Z.
Variable REMOTE_EOM : Z.
Hypothesis RESP_not_NUL : REMOTE_RESP <> 0.

(** C1, as amended.  On a transport whose reads each deliver between 1 and
    READ_BUFFER_LENGTH bytes, and for a destination length of at most
    INT_MAX: when the stream holds a start marker, then payload bytes free
    of the end marker, then an end-of-message marker, and the payload is
    shorter than the destination length, [platform_buffer_read] returns the
    moment the marker is copied; it returns the number of payload bytes (the
    marker is not counted) and the destination holds the payload followed by
    a 0 in the place of the marker.  For the stream
    [marker_start, 'A', 'B', marker_end] it returns 2 and the destination
    starts [A, B, 0]. *)
Theorem read_frame_ends_at_marker (buffer : list Z) (length : Z)
    (st : serial_state) (io : list transport_response)
    (noise payload rest : list Z) :
  buffer_ok st -> responses_okb io = true ->
  0 <= length <= Z.of_nat (List.length buffer) -> length <= INT_MAX ->
  stream st io = noise ++ REMOTE_RESP :: payload ++ REMOTE_EOM :: rest ->
  ~ In REMOTE_RESP noise -> ~ In REMOTE_EOM payload ->
  Z.of_nat (List.length payload) < length ->
  exists st' io',
    platform_buffer_read REMOTE_RESP REMOTE_EOM buffer length st io
    = Returned (Z.of_nat (List.length payload),
                payload ++ 0 :: skipn (S (List.length payload)) buffer,
                st', io').
Proof.
  intros Hok Hio HL Hint Hs Hnoise Hpay Hlen.
  destruct (platform_buffer_read_stream REMOTE_RESP REMOTE_EOM RESP_not_NUL
              buffer length st io Hok Hio HL Hint)
    as (st' & io' & Hrun & _).
  exists st', io'. rewrite Hrun. unfold frame_of_stream.
  rewrite Hs, after_response_split by assumption.
  rewrite frame_body_terminated by (try assumption; lia).
  cbn [fst snd]. rewrite overwrite_from_start, length_app, <- app_assoc.
  cbn [List.length app].
  replace (List.length payload + 1)%nat with (S (List.length payload)) by lia.
  f_equal. f_equal. f_equal. f_equal. lia.
Qed.

(** C5, as amended.  On a transport whose reads each deliver between 1 and
    READ_BUFFER_LENGTH bytes, and for a destination length of at most
    INT_MAX: when the [length] bytes that follow the start marker hold no
    end-of-message marker, [platform_buffer_read] returns exactly [length],
    the destination holds those bytes and none of them is a marker. *)
Theorem read_frame_truncated (buffer : list Z) (length : Z)
    (st : serial_state) (io : list transport_response)
    (noise body rest : list Z) :
  buffer_ok st -> responses_okb io = true ->
  0 <= length <= Z.of_nat (List.length buffer) -> length <= INT_MAX ->
  stream st io = noise ++ REMOTE_RESP :: body ++ rest ->
  ~ In REMOTE_RESP noise -> ~ In REMOTE_EOM body ->
  Z.of_nat (List.length body) = length ->
  exists buffer' st' io',
    platform_buffer_read REMOTE_RESP REMOTE_EOM buffer length st io
    = Returned (length, buffer', st', io')
    /\ firstn (Z.to_nat length) buffer' = body
    /\ ~ In REMOTE_EOM (firstn (Z.to_nat length) buffer').
Proof.
  intros Hok Hio HL Hint Hs Hnoise Hbody Hlen.
  destruct (platform_buffer_read_stream REMOTE_RESP REMOTE_EOM RESP_not_NUL
              buffer length st io Hok Hio HL Hint)
    as (st' & io' & Hrun & _).
  unfold frame_of_stream in Hrun.
  rewrite Hs, after_response_split in Hrun by assumption.
  replace (Z.to_nat length) with (List.length body) in * by lia.
  rewrite frame_body_filled in Hrun by assumption.
  cbn [fst snd] in Hrun. rewrite overwrite_from_start in Hrun.
  exists (body ++ skipn (List.length body) buffer), st', io'.
  assert (E : firstn (List.length body) (body ++ skipn (List.length body) buffer)
              = body).
  { rewrite firstn_app, Nat.sub_diag, firstn_all. simpl. apply app_nil_r. }
  rewrite E. auto.
Qed.

(** C6.  The result of [platform_buffer_read] does not depend on how the
    byte sequence is cut into the chunks of successive refills: two cuts of
    the same sequence give the same returned count and the same destination.
    The bytes in front of the start marker do not reach the output: the
    result is that of the stream which begins at the start marker, and the
    destination receives the first bytes of what follows the marker. *)
Theorem read_frame_chunking (buffer : list Z) (length : Z)
    (st : serial_state) (chunks1 chunks2 : list (list Z)) :
  buffer_ok st ->
  chunks_okb chunks1 = true -> chunks_okb chunks2 = true ->
  concat chunks1 = concat chunks2 ->
  0 <= length <= Z.of_nat (List.length buffer) -> length <= INT_MAX ->
  exists result buffer' st1 io1 st2 io2,
    platform_buffer_read REMOTE_RESP REMOTE_EOM buffer length st
                         (map ReadData chunks1)
    = Returned (result, buffer', st1, io1)
    /\ platform_buffer_read REMOTE_RESP REMOTE_EOM buffer length st
                            (map ReadData chunks2)
       = Returned (result, buffer', st2, io2)
    /\ forall noise body,
         pending st ++ concat chunks1 = noise ++ REMOTE_RESP :: body ->
         ~ In REMOTE_RESP noise ->
         (result, buffer')
         = frame_of_stream REMOTE_RESP REMOTE_EOM (REMOTE_RESP :: body) (-4)
                           length buffer
         /\ exists e w,
              frame_body REMOTE_EOM (Z.to_nat length) body = (e, w)
              /\ buffer' = w ++ skipn (List.length w) buffer
              /\ payload_of e w = firstn (List.length (payload_of e w)) body.
Proof.
  intros Hok H1 H2 Hcat HL Hint.
  rewrite <- responses_of_chunks in H1, H2.
  destruct (platform_buffer_read_stream REMOTE_RESP REMOTE_EOM RESP_not_NUL
              buffer length st _ Hok H1 HL Hint)
    as (st1 & io1 & Hrun1 & _).
  destruct (platform_buffer_read_stream REMOTE_RESP REMOTE_EOM RESP_not_NUL
              buffer length st _ Hok H2 HL Hint)
    as (st2 & io2 & Hrun2 & _).
  unfold stream, failure in Hrun1, Hrun2.
  rewrite incoming_of_chunks in Hrun1, Hrun2. cbn [fst snd] in Hrun1, Hrun2.
  rewrite <- Hcat in Hrun2.
  set (r := frame_of_stream REMOTE_RESP REMOTE_EOM
              (pending st ++ concat chunks1) (-4) length buffer) in *.
  exists (fst r), (snd r), st1, io1, st2, io2.
  split; [exact Hrun1|]. split; [exact Hrun2|].
  intros noise body Hs Hnoise. subst r. rewrite Hs.
  unfold frame_of_stream.
  rewrite after_response_split by assumption.
  cbn [after_response]. rewrite Z.eqb_refl.
  destruct (frame_body REMOTE_EOM (Z.to_nat length) body) as [e w] eqn:E.
  cbn [fst snd]. split; [reflexivity|].
  exists e, w. split; [reflexivity|]. split; [reflexivity|].
  eapply frame_body_payload. exact E.
Qed.

(** The call with destination length 0 against the stream. *)
Lemma platform_buffer_read_zero (buffer : list Z) (st : serial_state)
    (io : list transport_response) :
  buffer_ok st -> responses_okb io = true ->
  match after_response REMOTE_RESP (stream st io) with
  | Some rest =>
      exists st' io',
        platform_buffer_read REMOTE_RESP REMOTE_EOM buffer 0 st io
        = Returned (0, buffer, st', io')
        /\ buffer_ok st' /\ responses_okb io' = true
        /\ stream st' io' = rest /\ failure io' = failure io
  | None =>
      exists st' io',
        platform_buffer_read REMOTE_RESP REMOTE_EOM buffer 0 st io
        = Returned (failure io, buffer, st', io')
        /\ buffer_ok st'
  end.
Proof.
  intros Hok Hio. unfold platform_buffer_read.
  pose proof (drain_to_response_stream REMOTE_RESP (iterations io) 0 st io
                Hok Hio (stream_shorter_than_iterations st io Hok Hio)
                (not_eq_sym RESP_not_NUL)) as Hdrain.
  destruct (after_response REMOTE_RESP (stream st io)) as [rest|].
  - destruct Hdrain as (st1 & io1 & -> & Hok1 & Hio1 & Hrest & Hf & _).
    exists st1, io1. split; [|auto].
    destruct (iterations io1); reflexivity.
  - destruct Hdrain as (st1 & io1 & -> & Hok1 & _).
    exists st1, io1. rewrite int_of_failure. auto.
Qed.

(** Destination length 0 on a transport whose reads each deliver between 1
    and READ_BUFFER_LENGTH bytes: [platform_buffer_read] does not return at
    once.  It first takes the stream up to and including the first
    start-of-response marker out of the buffer and the transport, so that
    what follows the marker is what remains to be read; then it returns 0
    and the destination is as it was.  If the stream ends before a marker
    the call returns the result of the refill that failed. *)
Theorem read_frame_zero_length (buffer : list Z) (st : serial_state)
    (io : list transport_response) :
  buffer_ok st -> responses_okb io = true ->
  (forall noise rest,
      stream st io = noise ++ REMOTE_RESP :: rest -> ~ In REMOTE_RESP noise ->
      exists st' io',
        platform_buffer_read REMOTE_RESP REMOTE_EOM buffer 0 st io
        = Returned (0, buffer, st', io')
        /\ stream st' io' = rest)
  /\ (~ In REMOTE_RESP (stream st io) ->
      exists st' io',
        platform_buffer_read REMOTE_RESP REMOTE_EOM buffer 0 st io
        = Returned (failure io, buffer, st', io')
        /\ failure io < 0).
Proof.
  intros Hok Hio.
  pose proof (platform_buffer_read_zero buffer st io Hok Hio) as H.
  split.
  - intros noise rest Hs Hnoise.
    rewrite Hs, after_response_split in H by assumption.
    destruct H as (st' & io' & Hrun & _ & _ & Hrest & _). eauto.
  - intros Hnone. rewrite after_response_none in H by assumption.
    destruct H as (st' & io' & Hrun & _).
    exists st', io'. split; [exact Hrun|].
    destruct (failure_codes io) as [-> | [-> | ->]]; lia.
Qed.

End ReadFrameClaims.

(** *** Concrete runs, with the delimiters of the remote protocol *)

Lemma ampersand_not_NUL : RESP_AMPERSAND <> 0.
Proof. discriminate. Qed.

(** The scenario of C1 run through [read_frame_ends_at_marker]. *)
Lemma read_frame_ends_at_marker_scenario :
  exists st' io',
    run_read (repeat 0 10%nat) 10 initial_state [ReadData [38; 65; 66; 35]]
    = Returned (2, [65; 66; 0; 0; 0; 0; 0; 0; 0; 0], st', io').
Proof.
  apply (read_frame_ends_at_marker RESP_AMPERSAND EOM_HASH ampersand_not_NUL
           (repeat 0 10%nat) 10 initial_state [ReadData [38; 65; 66; 35]]
           [] [65; 66] []).
  - exact initial_state_ok.
  - reflexivity.
  - simpl. lia.
  - unfold INT_MAX. lia.
  - reflexivity.
  - intros [].
  - intros [H | [H | []]]; discriminate H.
  - simpl. lia.
Defined.

(** C1 as stated fails: the scenario does not return 4 with the marker left
    in the destination. *)
Lemma read_frame_scenario_is_not_four :
  ~ (exists buffer' st' io',
        run_read (repeat 0 10%nat) 10 initial_state
                 [ReadData [38; 65; 66; 35]]
        = Returned (4, buffer', st', io')
        /\ firstn 3 buffer' = [65; 66; 35]).
Proof.
  intros (buffer' & st' & io' & H & _).
  apply (f_equal returned_value) in H. vm_compute in H. discriminate H.
Qed.

(** A destination of two bytes in front of a longer frame. *)
Lemma read_frame_truncated_scenario :
  exists buffer' st' io',
    run_read [0; 0] 2 initial_state [ReadData [38; 65; 66; 67; 35]]
    = Returned (2, buffer', st', io')
    /\ firstn 2 buffer' = [65; 66]
    /\ ~ In 35 (firstn 2 buffer').
Proof.
  apply (read_frame_truncated RESP_AMPERSAND EOM_HASH ampersand_not_NUL
           [0; 0] 2 initial_state [ReadData [38; 65; 66; 67; 35]]
           [] [65; 66] [67; 35]).
  - exact initial_state_ok.
  - reflexivity.
  - simpl. lia.
  - unfold INT_MAX. lia.
  - reflexivity.
  - intros [].
  - intros [H | [H | []]]; discriminate H.
  - reflexivity.
Defined.

(** The two scenarios of C6: one refill, and the same bytes in two. *)
Lemma read_frame_chunking_scenario :
  exists result buffer' st1 io1 st2 io2,
    run_read (repeat 0 10%nat) 10 initial_state
             [ReadData [38; 65]; ReadData [66; 35]]
    = Returned (result, buffer', st1, io1)
    /\ run_read (repeat 0 10%nat) 10 initial_state
                [ReadData [38; 65; 66; 35]]
       = Returned (result, buffer', st2, io2).
Proof.
  destruct (read_frame_chunking RESP_AMPERSAND EOM_HASH ampersand_not_NUL
              (repeat 0 10%nat) 10 initial_state
              [[38; 65]; [66; 35]] [[38; 65; 66; 35]])
    as (result & buffer' & st1 & io1 & st2 & io2 & H1 & H2 & _).
  - exact initial_state_ok.
  - reflexivity.
  - reflexivity.
  - reflexivity.
  - simpl. lia.
  - unfold INT_MAX. lia.
  - exists result, buffer', st1, io1, st2, io2. split; assumption.
Defined.

(** Destination length 0 with one byte of noise in front of the marker. *)
Lemma read_frame_zero_length_scenario :
  exists st' io',
    run_read [9; 9] 0 initial_state [ReadData [7; 38; 65]]
    = Returned (0, [9; 9], st', io')
    /\ stream st' io' = [65].
Proof.
  destruct (read_frame_zero_length RESP_AMPERSAND EOM_HASH ampersand_not_NUL
              [9; 9] initial_state [ReadData [7; 38; 65]])
    as [H _].
  - exact initial_state_ok.
  - reflexivity.
  - apply (H [7] [65]).
    + reflexivity.
    + intros [E | []]. discriminate E.
Defined.

(** ** The refill and the invariant *)

(** C3, the code at the failing input.  After select() reported data, a
    read() that returns 0 bytes makes [bmda_read_more_data] return 0, its
    result for success, with a buffer that holds nothing. *)
Theorem refill_zero_bytes_reports_success (st : serial_state)
    (io : list transport_response) :
  bmda_read_more_data st (ReadData [] :: io)
  = (0, mkSerial (fd st) (read_buffer st) 0 0, io).
Proof. reflexivity. Qed.

(** A read() that fails is reported with -6. *)
Lemma refill_read_failure (st : serial_state) (io : list transport_response) :
  bmda_read_more_data st (ReadFailed :: io) = (-6, st, io).
Proof. reflexivity. Qed.

(** C2, the code at the failing input.  A first call reads the frame "&K#"
    and leaves the buffer empty with offset = fullness = 3.  In the second
    call the refill delivers 0 bytes and reports success; the call then
    consumes read_buffer[0], a stale byte at an index that is not below
    fullness, and returns with offset = 1 and fullness = 0. *)
Theorem read_after_zero_byte_refill :
  cursors_after
    (run_read (repeat 0 4%nat) 4 initial_state [ReadData [38; 75; 35]])
  = Some (1, 3, 3)
  /\ match run_read (repeat 0 4%nat) 4 initial_state [ReadData [38; 75; 35]] with
     | Returned (_, buffer1, st1, _) =>
         cursors_after (run_read buffer1 0 st1 [ReadData []])
     | _ => None
     end = Some (0, 1, 0).
Proof. split; vm_compute; reflexivity. Qed.

(** With a destination to fill, the same second call goes on to index the
    destination at offset - 1 = SIZE_MAX. *)
Lemma read_after_zero_byte_refill_undefined :
  match run_read (repeat 0 4%nat) 4 initial_state [ReadData [38; 75; 35]] with
  | Returned (_, buffer1, st1, _) => run_read buffer1 4 st1 [ReadData []]
  | _ => OutOfFuel
  end = Undefined.
Proof. vm_compute. reflexivity. Qed.

(** On a transport whose reads deliver between 1 and READ_BUFFER_LENGTH
    bytes the invariant is kept by the refill and by the whole call. *)
Lemma refill_keeps_invariant (st : serial_state) (io : list transport_response) :
  buffer_ok st -> responses_okb io = true ->
  buffer_ok (snd (fst (bmda_read_more_data st io))).
Proof.
  intros Hok Hio. destruct io as [|[| | |chunk] io]; simpl; try exact Hok.
  simpl in Hio. apply andb_true_iff in Hio as [Hc _].
  apply andb_true_iff in Hc as [Hc1 Hc2].
  apply Z.ltb_lt in Hc1. apply Z.leb_le in Hc2.
  apply (pending_after_read st chunk Hok (conj Hc1 Hc2)).
Qed.

(** ** The writer *)

(** C4 as stated fails: a short write neither ends the process nor makes
    the function return true. *)
Lemma short_write_returns_false :
  snd (fst (platform_buffer_write (fun _ => 2) [97; 98; 99; 100] 4
                                  initial_state))
  = Completes false
  /\ ~ (exists status,
          snd (fst (platform_buffer_write (fun _ => 2) [97; 98; 99; 100] 4
                                          initial_state))
          = Exits status).
Proof.
  split; [reflexivity|]. intros [status H]. discriminate H.
Qed.

(** C4, as amended.  [platform_buffer_write] makes exactly one write() call
    and leaves the connection state alone.  If the call fails (a negative
    result) the process ends with exit(-2); otherwise the function returns
    whether the whole buffer was written: true when write() took all
    [length] bytes, false after a short write. *)
Theorem platform_buffer_write_result (sys_write : write_call -> Z)
    (data : list Z) (length : Z) (st : serial_state) :
  0 <= length < 2 ^ 64 ->
  let call := mkWrite (fd st) data length in
  exists result,
    platform_buffer_write sys_write data length st = ([call], result, st)
    /\ (sys_write call < 0 -> result = Exits (-2))
    /\ (0 <= sys_write call < length -> result = Completes false)
    /\ (sys_write call = length -> result = Completes true).
Proof.
  intros HL call. unfold platform_buffer_write. fold call.
  destruct (Z.ltb_spec (sys_write call) 0) as [Hneg|Hpos].
  - exists (Exits (-2)). repeat split; try reflexivity; intros; lia.
  - exists (Completes (size_t (sys_write call) =? length)).
    split; [reflexivity|]. split; [intros; lia|]. split.
    + intros H. rewrite size_t_small by lia.
      destruct (Z.eqb_spec (sys_write call) length); [lia|reflexivity].
    + intros H. rewrite size_t_small by lia.
      rewrite H, Z.eqb_refl. reflexivity.
Qed.

(** A complete write, a short write and a failed write of four bytes. *)
Lemma platform_buffer_write_result_runs :
  snd (fst (platform_buffer_write (fun _ => 4) [97; 98; 99; 100] 4
                                  initial_state)) = Completes true
  /\ fst (fst (platform_buffer_write (fun _ => 4) [97; 98; 99; 100] 4
                                     initial_state))
     = [mkWrite 0 [97; 98; 99; 100] 4].
Proof.
  destruct (platform_buffer_write_result (fun _ => 4) [97; 98; 99; 100] 4
              initial_state)
    as (result & Hrun & _ & _ & Hfull); [lia|].
  rewrite Hrun. cbn [fst snd]. split; [|reflexivity].
  apply Hfull. reflexivity.
Defined.

(** ** Strings *)

Lemma starts_with_spec (value str : cstring) :
  starts_with value str = true <-> exists post, str = value ++ post.
Proof.
  revert str. induction value as [|v value IH]; intros str; simpl.
  - split; [intros _; exists str; reflexivity|reflexivity].
  - destruct str as [|x str].
    + split; [discriminate|]. intros [post H]. discriminate H.
    + rewrite andb_true_iff, Ascii.eqb_eq, IH. split.
      * intros [-> [post ->]]. exists post. reflexivity.
      * intros [post H]. injection H as -> ->. split; eauto.
Qed.

Lemma occurs_in_spec (search str : cstring) :
  occurs_in search str = true <-> exists pre post, str = pre ++ search ++ post.
Proof.
  induction str as [|x str IH]; simpl.
  - rewrite orb_false_r, starts_with_spec. split.
    + intros [post H]. exists [], post. exact H.
    + intros (pre & post & H). destruct pre as [|y pre]; [eauto|discriminate H].
  - rewrite orb_true_iff, starts_with_spec, IH. split.
    + intros [[post H] | (pre & post & H)].
      * exists [], post. exact H.
      * exists (x :: pre), post. simpl. now rewrite H.
    + intros (pre & post & H). destruct pre as [|y pre].
      * left. exists post. exact H.
      * right. injection H as _ H. eauto.
Qed.

Lemma begins_with_spec (str value : cstring) :
  begins_with str (strlen str) value = true <-> exists post, str = value ++ post.
Proof.
  unfold begins_with, strlen. rewrite firstn_all. apply starts_with_spec.
Qed.

Lemma ends_with_spec (str value : cstring) :
  ends_with str (strlen str) value = true <-> exists front, str = front ++ value.
Proof.
  unfold ends_with, strlen. rewrite firstn_all, andb_true_iff, Nat.leb_le.
  rewrite starts_with_spec. split.
  - intros [Hlen [post H]].
    assert (post = []) as ->.
    { apply (f_equal (@length ascii)) in H.
      rewrite length_skipn, length_app in H.
      apply length_zero_iff_nil. lia. }
    rewrite app_nil_r in H.
    set (n := (length str - length value)%nat) in *.
    exists (firstn n str).
    rewrite <- H. symmetry. apply firstn_skipn.
  - intros [front ->]. rewrite length_app. split; [lia|].
    exists []. rewrite app_nil_r.
    replace (length front + length value - length value)%nat
      with (length front) by lia.
    rewrite skipn_app, Nat.sub_diag, skipn_all. reflexivity.
Qed.

Lemma strrchr_absent (s : cstring) (c : ascii) :
  ~ In c s -> strrchr s c = None.
Proof.
  induction s as [|x s IH]; intros Hn; simpl; [reflexivity|].
  rewrite IH by (intros H; apply Hn; now right).
  destruct (Ascii.eqb_spec x c) as [->|_]; [|reflexivity].
  exfalso. apply Hn. now left.
Qed.

Lemma strrchr_last (head seg : cstring) (c : ascii) :
  ~ In c seg -> strrchr (head ++ c :: seg) c = Some (length head).
Proof.
  intros Hn. induction head as [|x head IH]; simpl.
  - rewrite strrchr_absent by assumption. now rewrite Ascii.eqb_refl.
  - rewrite IH. reflexivity.
Qed.

Lemma split_at_last (s : cstring) (c : ascii) :
  In c s -> exists head seg, s = head ++ c :: seg /\ ~ In c seg.
Proof.
  induction s as [|x s IH]; intros Hin; [destruct Hin|].
  destruct (in_dec ascii_dec c s) as [Hs|Hs].
  - destruct (IH Hs) as (head & seg & -> & Hn).
    exists (x :: head), seg. split; [reflexivity|exact Hn].
  - destruct Hin as [->|Hin]; [|contradiction].
    exists [], s. split; [reflexivity|exact Hs].
Qed.

(** ** Names of probes *)

(** A name that passes [device_is_bmp_gdb_port] ends in "-if00" and has an
    underscore in front of that suffix. *)
Lemma bmp_gdb_port_shape (device : cstring) :
  device_is_bmp_gdb_port device = true ->
  exists front, device = front ++ INTERFACE_SUFFIX /\ In "_"%char front.
Proof.
  unfold device_is_bmp_gdb_port. intros H.
  destruct (begins_with device (strlen device) BMP_IDSTRING_BLACKSPHERE
            || begins_with device (strlen device) BMP_IDSTRING_BLACKMAGIC
            || begins_with device (strlen device) BMP_IDSTRING_1BITSQUARED)
    eqn:Hb; [|discriminate H].
  apply ends_with_spec in H. destruct H as [front Hd].
  exists front. split; [exact Hd|].
  assert (Hk : exists k, nth_error device k = Some "_"%char).
  { apply orb_true_iff in Hb as [Hb|Hb];
      [apply orb_true_iff in Hb as [Hb|Hb]|];
      apply begins_with_spec in Hb; destruct Hb as [post ->].
    - exists 9%nat. reflexivity.
    - exists 9%nat. reflexivity.
    - exists 15%nat. reflexivity. }
  destruct Hk as [k Hk]. rewrite Hd in Hk.
  destruct (Nat.lt_ge_cases k (length front)) as [Hlt|Hge].
  - rewrite nth_error_app1 in Hk by assumption.
    eapply nth_error_In. exact Hk.
  - rewrite nth_error_app2 in Hk by assumption.
    apply nth_error_In in Hk. simpl in Hk.
    repeat (destruct Hk as [Hk|Hk]; [discriminate Hk|]). destruct Hk.
Qed.

(** C8.  A name that passes the device-identity filter has the form
    head ++ "_" ++ segment ++ "-if00" with no underscore in the segment, and
    [match_serial] accepts a serial hint exactly when the hint is a substring
    of that segment: a hint found only elsewhere in the name is rejected. *)
Theorem match_serial_segment (device : cstring) :
  device_is_bmp_gdb_port device = true ->
  Z.of_nat (strlen device) < 2 ^ 64 ->
  exists head segment,
    device = head ++ "_"%char :: segment ++ INTERFACE_SUFFIX
    /\ ~ In "_"%char segment
    /\ forall serial,
         match_serial device serial = true
         <-> exists pre post, segment = pre ++ serial ++ post.
Proof.
  intros Hport Hlen.
  destruct (bmp_gdb_port_shape device Hport) as (front & Hd & Hin).
  destruct (split_at_last front "_"%char Hin) as (head & segment & -> & Hseg).
  exists head, segment. rewrite <- app_assoc in Hd. cbn [app] in Hd.
  split; [exact Hd|]. split; [exact Hseg|].
  intros serial. unfold match_serial.
  assert (Hno : ~ In "_"%char (segment ++ INTERFACE_SUFFIX)).
  { intros H. apply in_app_or in H as [H|H]; [contradiction|].
    simpl in H.
    repeat (destruct H as [H|H]; [discriminate H|]). destruct H. }
  rewrite Hd at 1. rewrite strrchr_last by assumption.
  assert (Hskip : skipn (S (length head)) device = segment ++ INTERFACE_SUFFIX).
  { rewrite Hd. change (S (length head)) with (1 + length head)%nat.
    rewrite <- skipn_skipn, skipn_app, Nat.sub_diag, skipn_all. reflexivity. }
  rewrite Hskip.
  assert (Hsize : size_t (Z.of_nat (strlen device) - 5
                          - Z.of_nat (S (length head)))
                  = Z.of_nat (length segment)).
  { unfold strlen in *. rewrite Hd in Hlen |- *.
    rewrite length_app in Hlen |- *. cbn [length] in Hlen |- *.
    rewrite length_app in Hlen |- *.
    change (length INTERFACE_SUFFIX) with 5%nat in Hlen |- *.
    rewrite size_t_small; lia. }
  rewrite Hsize. unfold contains_substring.
  rewrite Nat2Z.id, firstn_app, Nat.sub_diag, firstn_all. cbn [firstn].
  rewrite app_nil_r. apply occurs_in_spec.
Qed.

(** A probe name as udev writes it, with serial number 8BB20A03. *)
Lemma match_serial_segment_example :
  exists head segment,
    PROBE_8BB20A03 = head ++ "_"%char :: segment ++ INTERFACE_SUFFIX
    /\ ~ In "_"%char segment
    /\ forall serial,
         match_serial PROBE_8BB20A03 serial = true
         <-> exists pre post, segment = pre ++ serial ++ post.
Proof.
  apply (match_serial_segment PROBE_8BB20A03).
  - reflexivity.
  - reflexivity.
Defined.

(** Part of the serial number matches, the vendor string does not. *)
Lemma match_serial_runs :
  match_serial PROBE_8BB20A03 (cstr "8BB2") = true
  /\ match_serial PROBE_8BB20A03 (cstr "Black") = false.
Proof. split; reflexivity. Qed.

(** ** Choosing the device *)

Lemma skip_unless_accepted (serial : option cstring) (d_name : cstring) :
  match serial with
  | Some s => negb (match_serial d_name s)
  | None => false
  end = negb (serial_accepts serial d_name).
Proof. destruct serial; reflexivity. Qed.

(** The first directory scan counts the names that pass the identity
    filter and the candidates among them, and keeps the path of the
    candidate seen last. *)
Lemma scan_entries_counts (serial : option cstring) (entries : list cstring) :
  forall acc,
    total (scan_entries entries serial acc)
    = (total acc + length (filter device_is_bmp_gdb_port entries))%nat
    /\ matches (scan_entries entries serial acc)
       = (matches acc + length (filter (is_candidate serial) entries))%nat
    /\ name (scan_entries entries serial acc)
       = fold_left (fun _ d_name => device_path d_name)
                   (filter (is_candidate serial) entries) (name acc).
Proof.
  induction entries as [|d entries IH]; intros acc.
  - simpl. repeat split; lia.
  - assert (Hstep :
        scan_entries (d :: entries) serial acc
        = if device_is_bmp_gdb_port d then
            if negb (serial_accepts serial d)
            then scan_entries entries serial
                   (mkScan (matches acc) (S (total acc)) (name acc))
            else scan_entries entries serial
                   (mkScan (S (matches acc)) (S (total acc)) (device_path d))
          else scan_entries entries serial acc).
    { cbn [scan_entries]. rewrite skip_unless_accepted. reflexivity. }
    assert (Hc : is_candidate serial d
                 = device_is_bmp_gdb_port d && serial_accepts serial d)
      by reflexivity.
    rewrite Hstep. cbn [filter]. rewrite !Hc.
    destruct (device_is_bmp_gdb_port d); cbn [andb].
    + destruct (serial_accepts serial d); cbn [negb].
      * destruct (IH (mkScan (S (matches acc)) (S (total acc)) (device_path d)))
          as (Ht & Hm & Hn).
        rewrite Ht, Hm, Hn. cbn [total matches name length fold_left].
        repeat split; lia.
      * destruct (IH (mkScan (matches acc) (S (total acc)) (name acc)))
          as (Ht & Hm & Hn).
        rewrite Ht, Hm, Hn. cbn [total matches name length].
        repeat split; lia.
    + apply IH.
Qed.

Lemma candidates_are_identified (serial : option cstring)
    (entries : list cstring) :
  (length (filter (is_candidate serial) entries)
   <= length (filter device_is_bmp_gdb_port entries))%nat.
Proof.
  induction entries as [|d entries IH]; simpl; [lia|].
  unfold is_candidate at 1.
  destruct (device_is_bmp_gdb_port d); cbn [andb]; [|exact IH].
  destruct (serial_accepts serial d); simpl; lia.
Qed.

Lemma candidates_without_serial (entries : list cstring) :
  filter (is_candidate None) entries = filter device_is_bmp_gdb_port entries.
Proof.
  apply filter_ext. intros d. unfold is_candidate. simpl. apply andb_true_r.
Qed.

Lemma device_path_short (d_name : cstring) :
  (strlen d_name <= NAME_MAX)%nat -> device_path d_name = DEVICE_BY_ID ++ d_name.
Proof.
  intros H. unfold device_path. f_equal.
  change (NAME_SIZE - strlen DEVICE_BY_ID - 2)%nat with 4076%nat.
  rewrite Nat.min_l by (unfold NAME_MAX in H; lia).
  apply firstn_all.
Qed.

(** C7.  Without an explicit device path, over the names listed in the
    by-id directory: if no name passes the device-identity filter the
    resolution fails with "No Black Magic Probes found"; if exactly one
    candidate is left after the identity and serial filters it succeeds with
    the path of that device; if two or more are left and no serial hint was
    given it fails, listing the candidates and asking for a serial number.
    The resolution succeeds if and only if exactly one candidate is left. *)
Theorem resolve_device_by_candidates (h : host) (entries : list cstring)
    (serial : option cstring) :
  by_id h = Some entries ->
  Forall (fun d_name => (strlen d_name <= NAME_MAX)%nat) entries ->
  let candidates := filter (is_candidate serial) entries in
  (filter device_is_bmp_gdb_port entries = [] ->
   resolve_device h None serial = Unresolved [No_Black_Magic_Probes_found])
  /\ (forall d_name,
        candidates = [d_name] ->
        resolve_device h None serial = Resolved (DEVICE_BY_ID ++ d_name))
  /\ ((2 <= length candidates)%nat -> serial = None ->
      resolve_device h None serial
      = Unresolved (Available_Probes :: map Probe_name candidates
                    ++ [Select_probe_with_s]))
  /\ ((exists path, resolve_device h None serial = Resolved path)
      <-> length candidates = 1%nat).
Proof.
  intros Hdir Hnames candidates. unfold resolve_device. rewrite Hdir.
  destruct (scan_entries_counts serial entries (mkScan 0 0 []))
    as (Ht & Hm & Hn).
  cbn [total matches name] in Ht, Hm, Hn. fold candidates in Hm, Hn.
  pose proof (candidates_are_identified serial entries) as Hle.
  fold candidates in Hle.
  rewrite Ht, Hm, Hn. cbn [Nat.add].
  split; [|split; [|split]].
  - intros ->. reflexivity.
  - intros d Hc. rewrite Hc in *. cbn [length fold_left] in *.
    destruct (filter device_is_bmp_gdb_port entries) as [|d0 l];
      [simpl in Hle; lia|].
    cbn [length Nat.eqb negb]. f_equal. apply device_path_short.
    assert (Hin : In d candidates) by (rewrite Hc; now left).
    apply filter_In in Hin as [Hin _].
    rewrite Forall_forall in Hnames. exact (Hnames d Hin).
  - intros H2 ->. unfold candidates in *.
    rewrite candidates_without_serial in *.
    destruct (filter device_is_bmp_gdb_port entries) as [|d0 [|d1 l]];
      simpl in H2; try lia.
    reflexivity.
  - destruct (length (filter device_is_bmp_gdb_port entries)) as [|t] eqn:Et.
    + cbn [Nat.eqb]. split; [intros [path H]; discriminate H|].
      intros H. lia.
    + cbn [Nat.eqb].
      destruct (Nat.eqb_spec (length candidates) 1) as [E|E]; cbn [negb].
      * split; [intros _; exact E|intros _; eauto].
      * split; [intros [path H]; discriminate H|intros H; contradiction].
Qed.

(** Two probes are plugged in, next to a serial adapter. *)
Lemma resolve_device_two_probes :
  resolve_device two_probes_host None (Some (cstr "8BB2"))
  = Resolved (DEVICE_BY_ID ++ PROBE_8BB20A03)
  /\ resolve_device two_probes_host None None
     = Unresolved [Available_Probes; Probe_name PROBE_8BB20A03;
                   Probe_name PROBE_72AE1B04; Select_probe_with_s].
Proof.
  assert (Hnames : Forall (fun d_name => (strlen d_name <= NAME_MAX)%nat)
                          [SERIAL_ADAPTER; PROBE_8BB20A03; PROBE_72AE1B04])
    by (repeat constructor; apply Nat.leb_le; reflexivity).
  split.
  - destruct (resolve_device_by_candidates two_probes_host
                [SERIAL_ADAPTER; PROBE_8BB20A03; PROBE_72AE1B04]
                (Some (cstr "8BB2")) eq_refl Hnames) as (_ & H & _).
    apply H. reflexivity.
  - destruct (resolve_device_by_candidates two_probes_host
                [SERIAL_ADAPTER; PROBE_8BB20A03; PROBE_72AE1B04]
                None eq_refl Hnames) as (_ & _ & H & _).
    apply H; [|reflexivity]. apply Nat.leb_le. reflexivity.
Defined.

(** ** Opening and the cursors *)

(** C9 as stated fails: an open that fails after the device name was chosen
    has already reset the cursors. *)
Lemma failed_open_resets_cursors :
  exists st' log,
    serial_open unreachable_host (Some (cstr "/dev/ttyACM0")) None
                state_with_data
    = Returned (false, st', log)
    /\ (read_buffer_fullness state_with_data,
        read_buffer_offset state_with_data) = (7, 2)
    /\ (read_buffer_fullness st', read_buffer_offset st') = (0, 0).
Proof.
  eexists. eexists. split; [reflexivity|]. split; reflexivity.
Qed.

Lemma connect_first_cursors (results : list (Z * bool)) (st : serial_state) :
  read_buffer_fullness (snd (connect_first results st)) = read_buffer_fullness st
  /\ read_buffer_offset (snd (connect_first results st)) = read_buffer_offset st.
Proof.
  revert st. induction results as [|[socket_fd connected] results IH];
    intros st; simpl; [auto|].
  destruct (socket_fd =? -1); [apply (IH (set_fd st socket_fd))|].
  destruct connected; simpl; [auto|apply (IH (set_fd st socket_fd))].
Qed.

Lemma try_opening_network_device_cursors (h : host) (name : cstring)
    (st : serial_state) :
  strlen name <> 255%nat ->
  exists ok st' log,
    try_opening_network_device h name st = Returned (ok, st', log)
    /\ read_buffer_fullness st' = read_buffer_fullness st
    /\ read_buffer_offset st' = read_buffer_offset st.
Proof.
  intros Hlen. unfold try_opening_network_device.
  destruct (256 <=? strlen name)%nat; [eauto 7|].
  destruct (Nat.eqb_spec (strlen name) 255); [contradiction|].
  destruct (strstr_colon name) as [colon|]; [|eauto 7].
  destruct (skipn (S colon) name) as [|c service]; [eauto 7|].
  destruct (getaddrinfo h (firstn colon name) (c :: service)) as [results|];
    [|eauto 7].
  pose proof (connect_first_cursors results st) as [Hf Ho].
  destruct (connect_first results st) as [ok st1]. simpl in Hf, Ho. eauto 7.
Qed.

(** C9, as amended.  [serial_open] resets the cursors to offset = fullness
    = 0 whenever it has chosen a device name and goes on to open it; the
    reset is made before the open is attempted and so stands whether the
    open succeeds or fails.  A [serial_open] that fails while choosing the
    name leaves the state as it was.  No other operation brings the cursors
    back to empty: the writer and [serial_close] leave the state as it was,
    and after [platform_buffer_read] on a transport whose reads deliver
    between 1 and READ_BUFFER_LENGTH bytes either the state is as it was or
    the buffer holds data. *)
Theorem cursors_reset_by_serial_open (h : host)
    (opt_device serial : option cstring) (st : serial_state) :
  (forall path,
      resolve_device h opt_device serial = Resolved path ->
      strlen path <> 255%nat ->
      exists ok st' log,
        serial_open h opt_device serial st = Returned (ok, st', log)
        /\ read_buffer_fullness st' = 0 /\ read_buffer_offset st' = 0)
  /\ (forall log,
        resolve_device h opt_device serial = Unresolved log ->
        serial_open h opt_device serial st = Returned (false, st, log))
  /\ (forall sys_write data length,
        snd (platform_buffer_write sys_write data length st) = st)
  /\ serial_close st = st
  /\ (forall REMOTE_RESP REMOTE_EOM buffer length io,
        REMOTE_RESP <> 0 -> buffer_ok st -> responses_okb io = true ->
        0 <= length <= Z.of_nat (List.length buffer) -> length <= INT_MAX ->
        exists result buffer' st' io',
          platform_buffer_read REMOTE_RESP REMOTE_EOM buffer length st io
          = Returned (result, buffer', st', io')
          /\ (0 < read_buffer_fullness st' \/ st' = st)).
Proof.
  split; [|split; [|split; [|split]]].
  - intros path Hres Hlen. unfold serial_open. rewrite Hres.
    cbn [fd set_fd].
    destruct (sys_open h path <? 0).
    + destruct (try_opening_network_device_cursors h path
                  (set_fd (mkSerial (fd st) (read_buffer st) 0 0)
                          (sys_open h path)) Hlen)
        as (ok & st' & log & -> & Hf & Ho).
      simpl in Hf, Ho. destruct ok; eauto 7.
    + destruct (set_interface_attribs h _) as [ok log]. eauto 7.
  - intros log Hres. unfold serial_open. rewrite Hres. reflexivity.
  - intros sys_write data length. unfold platform_buffer_write.
    destruct (sys_write _ <? 0); reflexivity.
  - reflexivity.
  - intros REMOTE_RESP REMOTE_EOM buffer length io Hresp Hok Hio HL Hint.
    destruct (platform_buffer_read_stream REMOTE_RESP REMOTE_EOM Hresp
                buffer length st io Hok Hio HL Hint)
      as (st' & io' & Hrun & _ & _ & Hkept).
    eauto 7.
Qed.

(** An open that succeeds on the device, from a state with data. *)
Lemma cursors_reset_by_serial_open_run :
  exists ok st' log,
    serial_open local_host (Some (cstr "/dev/ttyACM0")) None state_with_data
    = Returned (ok, st', log)
    /\ read_buffer_fullness st' = 0 /\ read_buffer_offset st' = 0.
Proof.
  destruct (cursors_reset_by_serial_open local_host
              (Some (cstr "/dev/ttyACM0")) None state_with_data)
    as [H _].
  apply (H (cstr "/dev/ttyACM0")).
  - reflexivity.
  - discriminate.
Defined.

(** * Further properties of the reader *)

(** ** What a call leaves in the stream *)

Section RestFacts.

Variable REMOTE_EOM : Z.

Lemma frame_rest_scan (room : nat) (p more c : list Z) (found : bool) :
  scan_chunk REMOTE_EOM room p = (c, found) ->
  frame_rest REMOTE_EOM room (p ++ more)
  = if found then skipn (length c) p ++ more
    else frame_rest REMOTE_EOM (room - length c) (skipn (length c) p ++ more).
Proof.
  revert p c found. induction room as [|room IH]; intros [|b p] c found;
    cbn [scan_chunk]; try (intros [= <- <-]; reflexivity).
  destruct (Z.eqb_spec b REMOTE_EOM) as [Eb|Eb].
  - intros [= <- <-]. cbn [frame_rest app length skipn].
    destruct (Z.eqb_spec b REMOTE_EOM); [reflexivity|contradiction].
  - destruct (scan_chunk REMOTE_EOM room p) as [c0 f0] eqn:E.
    intros [= <- <-].
    change (S room - length (b :: c0))%nat with (room - length c0)%nat.
    change (skipn (length (b :: c0)) (b :: p)) with (skipn (length c0) p).
    change ((b :: p) ++ more) with (b :: p ++ more).
    cbn [frame_rest].
    destruct (Z.eqb_spec b REMOTE_EOM); [contradiction|].
    apply (IH _ _ _ E).
Qed.

Lemma frame_body_starved_nil (room : nat) (w : list Z) :
  frame_body REMOTE_EOM (S room) [] = (Starved, w) -> w = [].
Proof. simpl. intros [= <-]. reflexivity. Qed.

(** The collector leaves in the buffer and the transport what follows the
    frame body in the stream. *)
Lemma collect_response_rest :
  forall (fuel : nat) (offset : Z) (buffer : list Z) (length : Z)
         (st : serial_state) (io : list transport_response),
    buffer_ok st -> responses_okb io = true ->
    0 <= offset <= length ->
    length <= Z.of_nat (List.length buffer) -> length <= INT_MAX ->
    (List.length (stream st io) < fuel)%nat ->
    fst (frame_body REMOTE_EOM (Z.to_nat (length - offset)) (stream st io))
    <> Starved ->
    exists result buffer' st' io',
      collect_response REMOTE_EOM fuel offset buffer length st io
      = Returned (result, buffer', st', io')
      /\ buffer_ok st' /\ responses_okb io' = true
      /\ stream st' io'
         = frame_rest REMOTE_EOM (Z.to_nat (length - offset)) (stream st io)
      /\ failure io' = failure io.
Proof.
  induction fuel as [|fuel IH];
    intros offset buffer length st io Hok Hio Ho HL Hint Hfuel Hend;
    [inversion Hfuel|].
  cbn [collect_response].
  destruct (Z.ltb_spec offset length) as [Hlt|Hge].
  2:{ replace (Z.to_nat (length - offset)) with 0%nat by lia.
      exists (int_of length), buffer, st, io. auto. }
  destruct (refill_if_empty st io) as [[result st1] io1] eqn:ER.
  destruct (refill_if_empty_spec st io Hok Hio _ _ _ ER)
    as [(Hneg & Hres & Hs & Hst) | (Hres & Hok1 & Hio1 & Hne & Hs & Hf & Hfd)].
  { exfalso. apply Hend. rewrite Hs.
    replace (Z.to_nat (length - offset))
      with (S (Z.to_nat (length - offset - 1))) by lia.
    reflexivity. }
  subst result. cbv beta iota. change (0 <? 0) with false. cbv iota.
  pose proof Hok1 as [(H0 & H1 & H2) HA].
  rewrite (scan_for_eom_chunk REMOTE_EOM st1 offset length Hok1)
    by bounds.
  rewrite Z.add_0_r, Z.sub_0_r, set_offset_same. cbn [Z.add].
  destruct (scan_chunk REMOTE_EOM (Z.to_nat (length - offset)) (pending st1))
    as [c found] eqn:Escan.
  cbn [fst].
  destruct (scan_chunk_prefix _ _ _ _ _ Escan) as (Hpre & Hroom & Hlen).
  pose proof (pending_length st1 Hok1) as Hpl.
  assert (Hc : c <> []).
  { destruct (pending st1) as [|b p] eqn:Ep; [simpl in Hpl; lia|].
    replace (Z.to_nat (length - offset))
      with (S (Z.to_nat (length - offset - 1))) in Escan by bounds.
    eapply scan_chunk_nonempty; eassumption. }
  destruct (exists_last Hc) as (c' & x & Ec). subst c.
  rewrite length_app in *. cbn [List.length] in *.
  rewrite memcpy_overwrite by bounds.
  rewrite pending_firstn by (try assumption; bounds).
  rewrite !Nat2Z.id, <- Hpre.
  rewrite (size_t_small (Z.of_nat (List.length c' + 1) - 1)) by bounds.
  rewrite (size_t_small (offset + (Z.of_nat (List.length c' + 1) - 1)))
    by bounds.
  rewrite (size_t_small (read_buffer_offset st1
                         + Z.of_nat (List.length c' + 1))) by bounds.
  destruct (pending_skipn st1 (Z.of_nat (List.length c' + 1)) Hok1)
    as [Hskip Hok2]; [bounds|].
  rewrite Nat2Z.id in Hskip.
  set (st2 := set_offset st1 (read_buffer_offset st1
                              + Z.of_nat (List.length c' + 1))) in *.
  assert (HoA : List.length (firstn (Z.to_nat offset) buffer) = Z.to_nat offset)
    by (rewrite length_firstn; bounds).
  rewrite load_Z by bounds.
  replace (Z.to_nat (offset + (Z.of_nat (List.length c' + 1) - 1)))
    with (List.length (firstn (Z.to_nat offset) buffer) + List.length c')%nat
    by bounds.
  rewrite overwrite_last_nth.
  destruct (scan_chunk_last _ _ _ _ _ _ Escan) as [Hfound _].
  rewrite <- Hs in Hend |- *. unfold stream in Hend |- *.
  rewrite (frame_rest_scan _ _ (fst (incoming io1)) _ _ Escan).
  rewrite length_app. cbn [List.length]. rewrite Hskip.
  destruct (Z.eqb_spec x REMOTE_EOM) as [Ex|Ex]; subst found.
  - replace (offset + (Z.of_nat (List.length c' + 1) - 1))
      with (Z.of_nat (Z.to_nat offset + List.length c')) by bounds.
    rewrite overwrite_last_store by bounds.
    eexists _, _, st2, io1. split; [reflexivity|]. auto.
  - rewrite (frame_body_scan_more _ _ _ _ _ Escan) in Hend.
    rewrite length_app in Hend. cbn [List.length] in Hend.
    rewrite Hskip in Hend.
    rewrite size_t_small by bounds.
    set (offset2 := offset + (Z.of_nat (List.length c' + 1) - 1) + 1).
    assert (Hroom2 : (Z.to_nat (length - offset) - (List.length c' + 1))%nat
                     = Z.to_nat (length - offset2))
      by (unfold offset2; lia).
    rewrite Hroom2 in Hend |- *.
    assert (Hfuel2 : (List.length (stream st2 io1) < fuel)%nat).
    { rewrite <- Hs in Hfuel. unfold stream in *.
      rewrite length_app in *. rewrite <- Hskip, length_skipn. lia. }
    assert (HL2 : length
                  <= Z.of_nat (List.length
                                 (overwrite buffer (Z.to_nat offset) (c' ++ [x])))).
    { rewrite overwrite_length; [lia|].
      rewrite length_app. cbn [List.length]. lia. }
    assert (Hend2 : fst (frame_body REMOTE_EOM (Z.to_nat (length - offset2))
                                    (stream st2 io1)) <> Starved).
    { unfold stream. intros E. apply Hend.
      destruct (frame_body REMOTE_EOM (Z.to_nat (length - offset2))
                           (pending st2 ++ fst (incoming io1))).
      exact E. }
    destruct (IH offset2 (overwrite buffer (Z.to_nat offset) (c' ++ [x]))
                 length st2 io1 Hok2 Hio1 ltac:(unfold offset2; lia)
                 HL2 Hint Hfuel2 Hend2)
      as (r & b & st' & io' & Hrun & Hok' & Hio' & Hrest & Hf').
    exists r, b, st', io'. rewrite Hrun.
    split; [reflexivity|]. split; [exact Hok'|]. split; [exact Hio'|].
    split; [exact Hrest|congruence].
Qed.

End RestFacts.

Section MoreStreamShapes.

Variable REMOTE_EOM : Z.

Lemma frame_rest_terminated (room : nat) (payload rest : list Z) :
  ~ In REMOTE_EOM payload -> (length payload < room)%nat ->
  frame_rest REMOTE_EOM room (payload ++ REMOTE_EOM :: rest) = rest.
Proof.
  revert room. induction payload as [|b payload IH]; intros room Hn Hroom;
    (destruct room; [inversion Hroom|]); simpl.
  - now rewrite Z.eqb_refl.
  - destruct (Z.eqb_spec b REMOTE_EOM) as [->|_].
    + exfalso. apply Hn. now left.
    + apply IH; [|simpl in Hroom; lia]. intros H. apply Hn. now right.
Qed.

Lemma frame_rest_filled (body rest : list Z) :
  ~ In REMOTE_EOM body ->
  frame_rest REMOTE_EOM (length body) (body ++ rest) = rest.
Proof.
  induction body as [|b body IH]; intros Hn; simpl; [reflexivity|].
  destruct (Z.eqb_spec b REMOTE_EOM) as [->|_].
  - exfalso. apply Hn. now left.
  - apply IH. intros H. apply Hn. now right.
Qed.

Lemma frame_body_starved (room : nat) (body : list Z) :
  ~ In REMOTE_EOM body -> (length body < room)%nat ->
  frame_body REMOTE_EOM room body = (Starved, body).
Proof.
  revert room. induction body as [|b body IH]; intros room Hn Hroom;
    (destruct room; [inversion Hroom|]); simpl; [reflexivity|].
  destruct (Z.eqb_spec b REMOTE_EOM) as [->|_].
  - exfalso. apply Hn. now left.
  - rewrite IH; [reflexivity| |simpl in Hroom; lia].
    intros H. apply Hn. now right.
Qed.

(** The three ways a frame body ends, by what it stores. *)
Lemma frame_body_shape (room : nat) (bytes : list Z) (e : frame_end)
    (w : list Z) :
  frame_body REMOTE_EOM room bytes = (e, w) ->
  match e with
  | Terminated =>
      exists payload,
        w = payload ++ [0] /\ ~ In REMOTE_EOM payload
        /\ (length payload < room)%nat
  | Filled => length w = room /\ ~ In REMOTE_EOM w
  | Starved => (length w < room)%nat /\ ~ In REMOTE_EOM w
  end.
Proof.
  revert bytes e w. induction room as [|room IH]; intros bytes e w.
  - simpl. intros [= <- <-]. split; [reflexivity|intros []].
  - destruct bytes as [|b bytes]; simpl.
    + intros [= <- <-]. split; [simpl; lia|intros []].
    + destruct (Z.eqb_spec b REMOTE_EOM) as [Eb|Eb].
      * intros [= <- <-]. exists []. split; [reflexivity|].
        split; [intros []|simpl; lia].
      * destruct (frame_body REMOTE_EOM room bytes) as [e0 w0] eqn:E.
        intros [= <- <-]. specialize (IH _ _ _ E).
        destruct e0.
        -- destruct IH as (payload & -> & Hn & Hl).
           exists (b :: payload). split; [reflexivity|].
           split; [|simpl; lia].
           intros [H|H]; [congruence|contradiction].
        -- destruct IH as [Hl Hn]. split; [simpl; lia|].
           intros [H|H]; [congruence|contradiction].
        -- destruct IH as [Hl Hn]. split; [simpl; lia|].
           intros [H|H]; [congruence|contradiction].
Qed.

End MoreStreamShapes.

Section ReadFrameMore.

Variable REMOTE_RESP : Z.
Variable REMOTE_EOM : Z.
Hypothesis RESP_not_NUL : REMOTE_RESP <> 0.

(** The whole call on a stream that holds a start marker and a frame body
    that is not cut short: result, destination and what stays to be read. *)
Lemma platform_buffer_read_frame (buffer : list Z) (length : Z)
    (st : serial_state) (io : list transport_response)
    (noise body : list Z) :
  buffer_ok st -> responses_okb io = true ->
  0 <= length <= Z.of_nat (List.length buffer) -> length <= INT_MAX ->
  stream st io = noise ++ REMOTE_RESP :: body ->
  ~ In REMOTE_RESP noise ->
  fst (frame_body REMOTE_EOM (Z.to_nat length) body) <> Starved ->
  exists st' io',
    platform_buffer_read REMOTE_RESP REMOTE_EOM buffer length st io
    = Returned (fst (frame_of_stream REMOTE_RESP REMOTE_EOM
                       (REMOTE_RESP :: body) (failure io) length buffer),
                snd (frame_of_stream REMOTE_RESP REMOTE_EOM
                       (REMOTE_RESP :: body) (failure io) length buffer),
                st', io')
    /\ buffer_ok st' /\ responses_okb io' = true
    /\ stream st' io' = frame_rest REMOTE_EOM (Z.to_nat length) body
    /\ failure io' = failure io.
Proof.
  intros Hok Hio HL Hint Hs Hnoise Hend.
  destruct (platform_buffer_read_stream REMOTE_RESP REMOTE_EOM RESP_not_NUL
              buffer length st io Hok Hio HL Hint)
    as (st1 & io1 & Hrun & _).
  assert (Hfos : frame_of_stream REMOTE_RESP REMOTE_EOM (stream st io)
                                 (failure io) length buffer
                 = frame_of_stream REMOTE_RESP REMOTE_EOM (REMOTE_RESP :: body)
                                   (failure io) length buffer).
  { unfold frame_of_stream. rewrite Hs, after_response_split by assumption.
    cbn [after_response]. now rewrite Z.eqb_refl. }
  rewrite Hfos in Hrun. clear Hfos.
  unfold platform_buffer_read in Hrun |- *.
  pose proof (drain_to_response_stream REMOTE_RESP (iterations io) 0 st io
                Hok Hio (stream_shorter_than_iterations st io Hok Hio)
                (not_eq_sym RESP_not_NUL)) as Hdrain.
  rewrite Hs, after_response_split in Hdrain by assumption.
  destruct Hdrain as (st2 & io2 & Hd & Hok2 & Hio2 & Hbody & Hf & _).
  rewrite Hd in Hrun |- *.
  destruct (collect_response_rest REMOTE_EOM (iterations io2) 0 buffer length
              st2 io2 Hok2 Hio2 ltac:(lia) ltac:(lia) Hint
              (stream_shorter_than_iterations st2 io2 Hok2 Hio2))
    as (r & b & st' & io' & Hrun' & Hok' & Hio' & Hrest & Hf').
  { rewrite Z.sub_0_r, Hbody. exact Hend. }
  rewrite Z.sub_0_r, Hbody in Hrest.
  rewrite Hrun' in Hrun. injection Hrun as -> -> <- <-.
  exists st', io'. rewrite Hrun'.
  split; [reflexivity|]. split; [exact Hok'|]. split; [exact Hio'|].
  split; [exact Hrest|congruence].
Qed.

(** X1.  On a transport whose reads each deliver between 1 and
    READ_BUFFER_LENGTH bytes: if the stream ends before a start-of-response
    marker has come, the call returns the result of the refill that failed,
    -3, -4 or -6, whatever the destination length, and the destination is as
    it was. *)
Theorem read_frame_no_marker (buffer : list Z) (length : Z)
    (st : serial_state) (io : list transport_response) :
  buffer_ok st -> responses_okb io = true ->
  ~ In REMOTE_RESP (stream st io) ->
  exists st' io',
    platform_buffer_read REMOTE_RESP REMOTE_EOM buffer length st io
    = Returned (failure io, buffer, st', io')
    /\ (failure io = -3 \/ failure io = -4 \/ failure io = -6).
Proof.
  intros Hok Hio Hnone. unfold platform_buffer_read.
  pose proof (drain_to_response_stream REMOTE_RESP (iterations io) 0 st io
                Hok Hio (stream_shorter_than_iterations st io Hok Hio)
                (not_eq_sym RESP_not_NUL)) as Hdrain.
  rewrite after_response_none in Hdrain by assumption.
  destruct Hdrain as (st' & io' & -> & _).
  exists st', io'. rewrite int_of_failure.
  split; [reflexivity|apply failure_codes].
Qed.

(** X2.  On a transport whose reads each deliver between 1 and
    READ_BUFFER_LENGTH bytes, and for a destination length of at most
    INT_MAX: if the stream ends inside a frame, after the start marker and
    fewer than [length] bytes without an end-of-message marker, the call
    returns the result of the refill that failed, and the bytes received so
    far are already in the destination. *)
Theorem read_frame_starved (buffer : list Z) (length : Z)
    (st : serial_state) (io : list transport_response)
    (noise body : list Z) :
  buffer_ok st -> responses_okb io = true ->
  0 <= length <= Z.of_nat (List.length buffer) -> length <= INT_MAX ->
  stream st io = noise ++ REMOTE_RESP :: body ->
  ~ In REMOTE_RESP noise -> ~ In REMOTE_EOM body ->
  Z.of_nat (List.length body) < length ->
  exists st' io',
    platform_buffer_read REMOTE_RESP REMOTE_EOM buffer length st io
    = Returned (failure io, body ++ skipn (List.length body) buffer, st', io')
    /\ failure io < 0.
Proof.
  intros Hok Hio HL Hint Hs Hnoise Hbody Hlen.
  destruct (platform_buffer_read_stream REMOTE_RESP REMOTE_EOM RESP_not_NUL
              buffer length st io Hok Hio HL Hint)
    as (st' & io' & Hrun & _).
  exists st', io'. rewrite Hrun. unfold frame_of_stream.
  rewrite Hs, after_response_split by assumption.
  rewrite frame_body_starved by (try assumption; lia).
  cbn [fst snd]. split; [reflexivity|].
  destruct (failure_codes io) as [-> | [-> | ->]]; lia.
Qed.

(** X3.  What the returned value says, on a transport whose reads each
    deliver between 1 and READ_BUFFER_LENGTH bytes and for a destination
    length of at most INT_MAX.  It is one of the failure results -3, -4,
    -6; or it lies in 0 .. length-1, and then the destination holds a 0 at
    that index with no end-of-message marker before it; or it equals
    [length], and then none of the [length] bytes stored is a marker.  A
    frame that ended on its marker never returns [length]. *)
Theorem read_frame_result_classes (buffer : list Z) (length : Z)
    (st : serial_state) (io : list transport_response) :
  buffer_ok st -> responses_okb io = true ->
  0 <= length <= Z.of_nat (List.length buffer) -> length <= INT_MAX ->
  exists result buffer' st' io',
    platform_buffer_read REMOTE_RESP REMOTE_EOM buffer length st io
    = Returned (result, buffer', st', io')
    /\ ((result = -3 \/ result = -4 \/ result = -6)
        \/ (0 <= result < length
            /\ nth_error buffer' (Z.to_nat result) = Some 0
            /\ ~ In REMOTE_EOM (firstn (Z.to_nat result) buffer'))
        \/ (result = length
            /\ ~ In REMOTE_EOM (firstn (Z.to_nat length) buffer'))).
Proof.
  intros Hok Hio HL Hint.
  destruct (platform_buffer_read_stream REMOTE_RESP REMOTE_EOM RESP_not_NUL
              buffer length st io Hok Hio HL Hint)
    as (st' & io' & Hrun & _).
  eexists _, _, st', io'. split; [exact Hrun|].
  unfold frame_of_stream.
  destruct (after_response REMOTE_RESP (stream st io)) as [body|];
    [|left; apply failure_codes].
  destruct (frame_body REMOTE_EOM (Z.to_nat length) body) as [e w] eqn:E.
  apply frame_body_shape in E. cbn [fst snd]. rewrite overwrite_from_start.
  destruct e.
  - destruct E as (payload & -> & Hn & Hl). right. left.
    rewrite length_app. cbn [List.length].
    replace (Z.to_nat (Z.of_nat (List.length payload + 1) - 1))
      with (List.length payload) by lia.
    split; [lia|]. rewrite <- app_assoc. split.
    + rewrite nth_error_app2, Nat.sub_diag by lia. reflexivity.
    + rewrite firstn_app, Nat.sub_diag, firstn_all. cbn [firstn].
      rewrite app_nil_r. exact Hn.
  - destruct E as [Hl Hn]. right. right. split; [reflexivity|].
    rewrite <- Hl, firstn_app, Nat.sub_diag, firstn_all. cbn [firstn].
    rewrite app_nil_r. exact Hn.
  - left. apply failure_codes.
Qed.

(** X4.  On a transport whose reads each deliver between 1 and
    READ_BUFFER_LENGTH bytes, and for a destination length of at most
    INT_MAX, the call writes nowhere but into the first [length] bytes of
    the destination: the memory keeps its size and every byte from index
    [length] on is as it was. *)
Theorem read_frame_destination_bounds (buffer : list Z) (length : Z)
    (st : serial_state) (io : list transport_response) :
  buffer_ok st -> responses_okb io = true ->
  0 <= length <= Z.of_nat (List.length buffer) -> length <= INT_MAX ->
  exists result buffer' st' io',
    platform_buffer_read REMOTE_RESP REMOTE_EOM buffer length st io
    = Returned (result, buffer', st', io')
    /\ List.length buffer' = List.length buffer
    /\ skipn (Z.to_nat length) buffer' = skipn (Z.to_nat length) buffer.
Proof.
  intros Hok Hio HL Hint.
  destruct (platform_buffer_read_stream REMOTE_RESP REMOTE_EOM RESP_not_NUL
              buffer length st io Hok Hio HL Hint)
    as (st' & io' & Hrun & _).
  eexists _, _, st', io'. split; [exact Hrun|].
  unfold frame_of_stream.
  destruct (after_response REMOTE_RESP (stream st io)) as [body|];
    [|split; reflexivity].
  destruct (frame_body REMOTE_EOM (Z.to_nat length) body) as [e w] eqn:E.
  apply frame_body_shape in E. cbn [fst snd].
  assert (Hw : (List.length w <= Z.to_nat length)%nat).
  { destruct e.
    - destruct E as (payload & -> & _ & Hl). rewrite length_app. simpl. lia.
    - lia.
    - lia. }
  split.
  - apply overwrite_length. lia.
  - rewrite overwrite_from_start, skipn_app.
    rewrite skipn_all2 by exact Hw. rewrite skipn_skipn. cbn [app].
    f_equal. lia.
Qed.

(** X5.  The call keeps the connection: the descriptor is unchanged, the
    read buffer keeps its READ_BUFFER_LENGTH bytes and the cursors satisfy
    0 <= offset <= fullness <= READ_BUFFER_LENGTH afterwards. *)
Theorem read_frame_keeps_connection (buffer : list Z) (length : Z)
    (st : serial_state) (io : list transport_response) :
  buffer_ok st -> responses_okb io = true ->
  0 <= length <= Z.of_nat (List.length buffer) -> length <= INT_MAX ->
  exists result buffer' st' io',
    platform_buffer_read REMOTE_RESP REMOTE_EOM buffer length st io
    = Returned (result, buffer', st', io')
    /\ fd st' = fd st
    /\ 0 <= read_buffer_offset st' <= read_buffer_fullness st'
    /\ read_buffer_fullness st' <= READ_BUFFER_LENGTH
    /\ Z.of_nat (List.length (read_buffer st')) = READ_BUFFER_LENGTH.
Proof.
  intros Hok Hio HL Hint.
  destruct (platform_buffer_read_stream REMOTE_RESP REMOTE_EOM RESP_not_NUL
              buffer length st io Hok Hio HL Hint)
    as (st' & io' & Hrun & [(H0 & H1 & H2) HA] & [Hfd _]).
  eexists _, _, st', io'. split; [exact Hrun|]. auto.
Qed.

(** X6.  After a frame that ended on its marker, what follows the marker
    in the stream is what the next call will read: nothing behind the
    marker is lost or consumed. *)
Theorem read_frame_leaves_rest (buffer : list Z) (length : Z)
    (st : serial_state) (io : list transport_response)
    (noise payload rest : list Z) :
  buffer_ok st -> responses_okb io = true ->
  0 <= length <= Z.of_nat (List.length buffer) -> length <= INT_MAX ->
  stream st io = noise ++ REMOTE_RESP :: payload ++ REMOTE_EOM :: rest ->
  ~ In REMOTE_RESP noise -> ~ In REMOTE_EOM payload ->
  Z.of_nat (List.length payload) < length ->
  exists result buffer' st' io',
    platform_buffer_read REMOTE_RESP REMOTE_EOM buffer length st io
    = Returned (result, buffer', st', io')
    /\ stream st' io' = rest /\ failure io' = failure io
    /\ buffer_ok st' /\ responses_okb io' = true.
Proof.
  intros Hok Hio HL Hint Hs Hnoise Hpay Hlen.
  destruct (platform_buffer_read_frame buffer length st io noise
              (payload ++ REMOTE_EOM :: rest) Hok Hio HL Hint Hs Hnoise)
    as (st' & io' & Hrun & Hok' & Hio' & Hrest & Hf).
  { rewrite frame_body_terminated by (try assumption; lia). discriminate. }
  rewrite frame_rest_terminated in Hrest by (try assumption; lia).
  eexists _, _, st', io'. split; [exact Hrun|]. auto.
Qed.

(** X7.  After a truncated read the bytes of the frame that did not fit
    stay in the stream: the next call starts at the byte that follows the
    [length] bytes delivered. *)
Theorem read_frame_truncated_leaves_rest (buffer : list Z) (length : Z)
    (st : serial_state) (io : list transport_response)
    (noise body rest : list Z) :
  buffer_ok st -> responses_okb io = true ->
  0 <= length <= Z.of_nat (List.length buffer) -> length <= INT_MAX ->
  stream st io = noise ++ REMOTE_RESP :: body ++ rest ->
  ~ In REMOTE_RESP noise -> ~ In REMOTE_EOM body ->
  Z.of_nat (List.length body) = length ->
  exists buffer' st' io',
    platform_buffer_read REMOTE_RESP REMOTE_EOM buffer length st io
    = Returned (length, buffer', st', io')
    /\ stream st' io' = rest /\ failure io' = failure io.
Proof.
  intros Hok Hio HL Hint Hs Hnoise Hbody Hlen.
  assert (Hroom : Z.to_nat length = List.length body) by lia.
  destruct (platform_buffer_read_frame buffer length st io noise
              (body ++ rest) Hok Hio HL Hint Hs Hnoise)
    as (st' & io' & Hrun & Hok' & Hio' & Hrest & Hf).
  { rewrite Hroom, frame_body_filled by assumption. discriminate. }
  rewrite Hroom, frame_rest_filled in Hrest by assumption.
  unfold frame_of_stream in Hrun. cbn [after_response] in Hrun.
  rewrite Z.eqb_refl, Hroom, frame_body_filled in Hrun by assumption.
  cbn [fst snd] in Hrun.
  eexists _, st', io'. split; [exact Hrun|]. auto.
Qed.

(** X8.  On a transport whose reads each deliver between 1 and
    READ_BUFFER_LENGTH bytes: two frames that follow one another in the
    stream, in whatever chunks they arrive, each with a payload shorter
    than the destination length of its call (at most INT_MAX), are returned
    by two successive calls, each with the length of its own payload and the
    payload followed by 0. *)
Theorem read_two_frames (buffer1 buffer2 : list Z) (length1 length2 : Z)
    (st : serial_state) (io : list transport_response)
    (noise1 payload1 noise2 payload2 rest : list Z) :
  buffer_ok st -> responses_okb io = true ->
  0 <= length1 <= Z.of_nat (List.length buffer1) -> length1 <= INT_MAX ->
  0 <= length2 <= Z.of_nat (List.length buffer2) -> length2 <= INT_MAX ->
  stream st io
  = noise1 ++ REMOTE_RESP :: payload1 ++ REMOTE_EOM
           :: noise2 ++ REMOTE_RESP :: payload2 ++ REMOTE_EOM :: rest ->
  ~ In REMOTE_RESP noise1 -> ~ In REMOTE_RESP noise2 ->
  ~ In REMOTE_EOM payload1 -> ~ In REMOTE_EOM payload2 ->
  Z.of_nat (List.length payload1) < length1 ->
  Z.of_nat (List.length payload2) < length2 ->
  exists st1 io1 st2 io2,
    platform_buffer_read REMOTE_RESP REMOTE_EOM buffer1 length1 st io
    = Returned (Z.of_nat (List.length payload1),
                payload1 ++ 0 :: skipn (S (List.length payload1)) buffer1,
                st1, io1)
    /\ platform_buffer_read REMOTE_RESP REMOTE_EOM buffer2 length2 st1 io1
       = Returned (Z.of_nat (List.length payload2),
                   payload2 ++ 0 :: skipn (S (List.length payload2)) buffer2,
                   st2, io2)
    /\ stream st2 io2 = rest.
Proof.
  intros Hok Hio HL1 Hint1 HL2 Hint2 Hs Hn1 Hn2 Hp1 Hp2 Hlen1 Hlen2.
  assert (Hframe :
      forall buffer length st io noise payload rest,
        buffer_ok st -> responses_okb io = true ->
        0 <= length <= Z.of_nat (List.length buffer) -> length <= INT_MAX ->
        stream st io = noise ++ REMOTE_RESP :: payload ++ REMOTE_EOM :: rest ->
        ~ In REMOTE_RESP noise -> ~ In REMOTE_EOM payload ->
        Z.of_nat (List.length payload) < length ->
        exists st' io',
          platform_buffer_read REMOTE_RESP REMOTE_EOM buffer length st io
          = Returned (Z.of_nat (List.length payload),
                      payload ++ 0 :: skipn (S (List.length payload)) buffer,
                      st', io')
          /\ buffer_ok st' /\ responses_okb io' = true
          /\ stream st' io' = rest).
  { clear Hok Hio HL1 Hint1 HL2 Hint2 Hs Hn1 Hn2 Hp1 Hp2 Hlen1 Hlen2.
    clear buffer1 buffer2 length1 length2 st io noise1 payload1 noise2
          payload2 rest.
    intros buffer length st io noise payload rest
           Hok Hio HL Hint Hs Hnoise Hpay Hlen.
    destruct (platform_buffer_read_frame buffer length st io noise
                (payload ++ REMOTE_EOM :: rest) Hok Hio HL Hint Hs Hnoise)
      as (st' & io' & Hrun & Hok' & Hio' & Hrest & _).
    { rewrite frame_body_terminated by (try assumption; lia). discriminate. }
    rewrite frame_rest_terminated in Hrest by (try assumption; lia).
    unfold frame_of_stream in Hrun. cbn [after_response] in Hrun.
    rewrite Z.eqb_refl, frame_body_terminated in Hrun
      by (try assumption; lia).
    cbn [fst snd] in Hrun.
    rewrite overwrite_from_start, length_app, <- app_assoc in Hrun.
    cbn [List.length app] in Hrun.
    replace (List.length payload + 1)%nat with (S (List.length payload))
      in Hrun by lia.
    replace (Z.of_nat (S (List.length payload)) - 1)
      with (Z.of_nat (List.length payload)) in Hrun by lia.
    exists st', io'. auto. }
  destruct (Hframe buffer1 length1 st io noise1 payload1 _
              Hok Hio HL1 Hint1 Hs Hn1 Hp1 Hlen1)
    as (st1 & io1 & Hrun1 & Hok1 & Hio1 & Hs1).
  destruct (Hframe buffer2 length2 st1 io1 noise2 payload2 rest
              Hok1 Hio1 HL2 Hint2 Hs1 Hn2 Hp2 Hlen2)
    as (st2 & io2 & Hrun2 & _ & _ & Hs2).
  exists st1, io1, st2, io2. auto.
Qed.

End ReadFrameMore.

(** ** The refill *)

(** X9.  A refill that succeeds replaces the buffer: the bytes to be read
    next are exactly the chunk read() delivered, whatever was in the buffer
    before; the invariant holds afterwards.  A refill that fails returns a
    negative result and leaves the state as it was. *)
Theorem refill_replaces_pending (st : serial_state)
    (io : list transport_response) :
  buffer_ok st -> responses_okb io = true ->
  (exists chunk io',
      io = ReadData chunk :: io'
      /\ fst (fst (bmda_read_more_data st io)) = 0
      /\ pending (snd (fst (bmda_read_more_data st io))) = chunk
      /\ buffer_ok (snd (fst (bmda_read_more_data st io)))
      /\ fd (snd (fst (bmda_read_more_data st io))) = fd st)
  \/ (fst (fst (bmda_read_more_data st io)) < 0
      /\ snd (fst (bmda_read_more_data st io)) = st).
Proof.
  intros Hok Hio. destruct io as [|[| | |chunk] io];
    try (right; simpl; split; [lia|reflexivity]).
  left. exists chunk, io. simpl in Hio.
  apply andb_true_iff in Hio as [Hc _].
  apply andb_true_iff in Hc as [Hc1 Hc2].
  apply Z.ltb_lt in Hc1. apply Z.leb_le in Hc2.
  destruct (pending_after_read st chunk Hok (conj Hc1 Hc2)) as [Hok1 Hp1].
  simpl. auto.
Qed.

(** * Further properties of the resolver and the opener *)

(** ** Which names are probes *)

(** X10.  [device_is_bmp_gdb_port] accepts exactly the names that begin
    with one of the three identity strings and end in "-if00". *)
Theorem device_is_bmp_gdb_port_iff (device : cstring) :
  device_is_bmp_gdb_port device = true
  <-> ((exists post, device = BMP_IDSTRING_BLACKSPHERE ++ post)
       \/ (exists post, device = BMP_IDSTRING_BLACKMAGIC ++ post)
       \/ (exists post, device = BMP_IDSTRING_1BITSQUARED ++ post))
      /\ exists front, device = front ++ INTERFACE_SUFFIX.
Proof.
  unfold device_is_bmp_gdb_port.
  rewrite <- !begins_with_spec, <- ends_with_spec.
  destruct (begins_with device (strlen device) BMP_IDSTRING_BLACKSPHERE);
    destruct (begins_with device (strlen device) BMP_IDSTRING_BLACKMAGIC);
    destruct (begins_with device (strlen device) BMP_IDSTRING_1BITSQUARED);
    cbn [orb]; try tauto.
  split; [discriminate|]. intros [[H | [H | H]] _]; discriminate H.
Qed.

(** ** The resolution *)

(** The resolution succeeds exactly on a single candidate, with its path. *)
Lemma resolve_device_resolved (h : host) (entries : list cstring)
    (serial : option cstring) (path : cstring) :
  by_id h = Some entries ->
  resolve_device h None serial = Resolved path
  <-> exists d_name,
        filter (is_candidate serial) entries = [d_name]
        /\ path = device_path d_name.
Proof.
  intros Hdir. unfold resolve_device. rewrite Hdir.
  destruct (scan_entries_counts serial entries (mkScan 0 0 []))
    as (Ht & Hm & Hn).
  cbn [total matches name Nat.add] in Ht, Hm, Hn.
  pose proof (candidates_are_identified serial entries) as Hle.
  rewrite Ht, Hm, Hn.
  destruct (filter (is_candidate serial) entries) as [|d [|d' l]] eqn:Ec;
    cbn [length fold_left] in *.
  - destruct (length (filter device_is_bmp_gdb_port entries)); cbn [Nat.eqb negb].
    + split; [discriminate|]. intros (d & H & _). discriminate H.
    + split; [discriminate|]. intros (d & H & _). discriminate H.
  - destruct (length (filter device_is_bmp_gdb_port entries)) as [|t];
      [lia|]. cbn [Nat.eqb negb]. split.
    + intros [= <-]. exists d. auto.
    + intros (d0 & [= <-] & ->). reflexivity.
  - destruct (length (filter device_is_bmp_gdb_port entries)) as [|t];
      [lia|]. cbn [Nat.eqb negb]. split.
    + discriminate.
    + intros (d0 & H & _). discriminate H.
Qed.

Lemma filter_permutation {A} (f : A -> bool) (l1 l2 : list A) :
  Permutation l1 l2 -> Permutation (filter f l1) (filter f l2).
Proof.
  induction 1 as [|x l1 l2 _ IH|x y l|l1 l2 l3 _ IH1 _ IH2]; simpl.
  - constructor.
  - destruct (f x); [constructor|]; exact IH.
  - destruct (f x), (f y); try reflexivity. constructor.
  - etransitivity; eassumption.
Qed.

(** X11.  The resolution does not depend on the order in which readdir()
    yields the directory entries: two listings of the same entries resolve
    to the same path, or both fail. *)
Theorem resolve_device_any_order (h1 h2 : host) (entries1 entries2 : list cstring)
    (serial : option cstring) (path : cstring) :
  by_id h1 = Some entries1 -> by_id h2 = Some entries2 ->
  Permutation entries1 entries2 ->
  resolve_device h1 None serial = Resolved path
  <-> resolve_device h2 None serial = Resolved path.
Proof.
  intros H1 H2 Hperm.
  rewrite (resolve_device_resolved h1 entries1 serial path H1).
  rewrite (resolve_device_resolved h2 entries2 serial path H2).
  pose proof (filter_permutation (is_candidate serial) _ _ Hperm) as Hf.
  split; intros (d & Hc & Hp); exists d; (split; [|exact Hp]).
  - rewrite Hc in Hf. apply Permutation_length_1_inv in Hf. exact Hf.
  - rewrite Hc in Hf. apply Permutation_sym, Permutation_length_1_inv in Hf.
    exact Hf.
Qed.

(** X12.  With a serial hint, when probes are present but the hint selects
    none of them, or more than one, the resolution fails, lists every
    probe, not only the selected ones, and reports that nothing matched the
    serial number (also when several probes matched). *)
Theorem resolve_device_serial_not_unique (h : host) (entries : list cstring)
    (s : cstring) :
  by_id h = Some entries ->
  filter device_is_bmp_gdb_port entries <> [] ->
  length (filter (is_candidate (Some s)) entries) <> 1%nat ->
  resolve_device h None (Some s)
  = Unresolved (Available_Probes
                :: map Probe_name (filter device_is_bmp_gdb_port entries)
                ++ [No_match_for_serial_number s]).
Proof.
  intros Hdir Hsome Hnot. unfold resolve_device. rewrite Hdir.
  destruct (scan_entries_counts (Some s) entries (mkScan 0 0 []))
    as (Ht & Hm & _).
  cbn [total matches Nat.add] in Ht, Hm. rewrite Ht, Hm.
  destruct (filter device_is_bmp_gdb_port entries) as [|d l];
    [contradiction|].
  cbn [length Nat.eqb].
  destruct (Nat.eqb_spec (length (filter (is_candidate (Some s)) entries)) 1);
    [contradiction|reflexivity].
Qed.

(** ** Opening *)

Lemma connect_first_find (results : list (Z * bool)) (st : serial_state) :
  match find usable_address results with
  | Some (socket_fd, _) =>
      connect_first results st = (true, set_fd st socket_fd)
      /\ socket_fd <> -1
  | None => fst (connect_first results st) = false
  end.
Proof.
  revert st. induction results as [|[socket_fd connected] results IH];
    intros st; [reflexivity|].
  cbn [find connect_first]. unfold usable_address at 1. cbn [fst snd].
  destruct (Z.eqb_spec socket_fd (-1)) as [E|E]; cbn [negb andb].
  - specialize (IH (set_fd st socket_fd)).
    destruct (find usable_address results) as [[s c]|]; exact IH.
  - destruct connected; cbn [negb].
    + split; [reflexivity|exact E].
    + specialize (IH (set_fd st socket_fd)).
      destruct (find usable_address results) as [[s c]|]; exact IH.
Qed.

Lemma strstr_colon_first (host service : cstring) :
  ~ In ":"%char host ->
  strstr_colon (host ++ ":"%char :: service) = Some (length host).
Proof.
  intros Hn. induction host as [|x host IH]; [reflexivity|].
  cbn [app strstr_colon length].
  destruct (Ascii.eqb_spec x ":"%char) as [->|_].
  - exfalso. apply Hn. now left.
  - rewrite IH; [reflexivity|]. intros H. apply Hn. now right.
Qed.

(** X13.  A name of the form host:service is cut at its first colon, and
    the connection goes to the first address of getaddrinfo() on which both
    socket() and connect() succeed: the call returns true with [fd] set to
    that socket, and false if there is no such address. *)
Theorem network_open_first_address (h : host) (name host_part service : cstring)
    (results : list (Z * bool)) (st : serial_state) :
  (strlen name < 255)%nat ->
  name = host_part ++ ":"%char :: service ->
  ~ In ":"%char host_part -> service <> [] ->
  getaddrinfo h host_part service = Some results ->
  match find usable_address results with
  | Some (socket_fd, _) =>
      try_opening_network_device h name st
      = Returned (true, set_fd st socket_fd, [])
      /\ socket_fd <> -1
  | None =>
      exists st', try_opening_network_device h name st = Returned (false, st', [])
  end.
Proof.
  intros Hlen Hname Hhost Hservice Hres. unfold try_opening_network_device.
  destruct (Nat.leb_spec 256 (strlen name)); [lia|].
  destruct (Nat.eqb_spec (strlen name) 255); [lia|].
  subst name. rewrite strstr_colon_first by assumption.
  assert (Hh : firstn (length host_part) (host_part ++ ":"%char :: service)
               = host_part).
  { rewrite firstn_app, Nat.sub_diag, firstn_all. cbn [firstn].
    apply app_nil_r. }
  assert (Hsv : skipn (S (length host_part)) (host_part ++ ":"%char :: service)
                = service).
  { change (S (length host_part)) with (1 + length host_part)%nat.
    rewrite <- skipn_skipn, skipn_app, Nat.sub_diag, skipn_all. reflexivity. }
  rewrite Hh, Hsv. destruct service as [|c service]; [contradiction|].
  rewrite Hres.
  pose proof (connect_first_find results st) as Hfind.
  destruct (find usable_address results) as [[socket_fd connected]|].
  - destruct Hfind as [-> Hfd]. auto.
  - destruct (connect_first results st) as [ok st']. simpl in Hfind.
    subst ok. eauto.
Qed.

(** X14.  [serial_open] returns true only with [fd] set to a descriptor
    that was opened, never -1, and with an empty read buffer. *)
Theorem serial_open_true_has_descriptor (h : host)
    (opt_device serial : option cstring) (st st' : serial_state)
    (log : list message) :
  serial_open h opt_device serial st = Returned (true, st', log) ->
  fd st' <> -1
  /\ read_buffer_fullness st' = 0 /\ read_buffer_offset st' = 0.
Proof.
  unfold serial_open.
  destruct (resolve_device h opt_device serial) as [path|log0];
    [|discriminate].
  cbn [fd set_fd].
  destruct (Z.ltb_spec (sys_open h path) 0) as [Hneg|Hpos].
  - unfold try_opening_network_device.
    destruct (256 <=? strlen path)%nat; [discriminate|].
    destruct (strlen path =? 255)%nat; [discriminate|].
    destruct (strstr_colon path) as [colon|]; [|discriminate].
    destruct (skipn (S colon) path) as [|c service]; [discriminate|].
    destruct (getaddrinfo h (firstn colon path) (c :: service)) as [results|];
      [|discriminate].
    pose proof (connect_first_find results
                  (set_fd (mkSerial (fd st) (read_buffer st) 0 0)
                          (sys_open h path))) as Hfind.
    destruct (find usable_address results) as [[socket_fd connected]|].
    + destruct Hfind as [-> Hfd]. intros [= <- <-]. simpl. auto.
    + destruct (connect_first results _) as [ok st1]. simpl in Hfind.
      subst ok. discriminate.
  - destruct (set_interface_attribs h _) as [ok log1].
    intros [= -> <- <-]. simpl. split; [lia|auto].
Qed.

(** ** The macOS variant *)

Lemma connect_first_buffer (results : list (Z * bool)) (st : serial_state) :
  read_buffer (snd (connect_first results st)) = read_buffer st.
Proof.
  revert st. induction results as [|[socket_fd connected] results IH];
    intros st; simpl; [reflexivity|].
  destruct (socket_fd =? -1); [apply (IH (set_fd st socket_fd))|].
  destruct connected; simpl; [reflexivity|apply (IH (set_fd st socket_fd))].
Qed.

(** X15.  The macOS variant of [serial_open] never resets the read buffer:
    however it ends, the buffer and both cursors are as they were before,
    so bytes left unread by an earlier connection stay pending. *)
Theorem serial_open_macos_keeps_buffer (h : host)
    (opt_device serial : option cstring) (st st' : serial_state)
    (ok : bool) (log : list macos_message) :
  serial_open_macos h opt_device serial st = Returned (ok, st', log) ->
  read_buffer st' = read_buffer st
  /\ read_buffer_fullness st' = read_buffer_fullness st
  /\ read_buffer_offset st' = read_buffer_offset st.
Proof.
  unfold serial_open_macos.
  destruct (macos_device_name opt_device serial) as [[path|] | |];
    try discriminate.
  2:{ intros [= _ <- _]. auto. }
  cbn [fd set_fd].
  destruct (sys_open h path <? 0).
  - unfold try_opening_network_device.
    destruct (256 <=? strlen path)%nat;
      [intros [= _ <- _]; simpl; auto|].
    destruct (strlen path =? 255)%nat; [discriminate|].
    destruct (strstr_colon path) as [colon|];
      [|intros [= _ <- _]; simpl; auto].
    destruct (skipn (S colon) path) as [|c service];
      [intros [= _ <- _]; simpl; auto|].
    destruct (getaddrinfo h (firstn colon path) (c :: service)) as [results|];
      [|intros [= _ <- _]; simpl; auto].
    pose proof (connect_first_cursors results
                  (set_fd st (sys_open h path))) as [Hf Ho].
    pose proof (connect_first_buffer results
                  (set_fd st (sys_open h path))) as Hb.
    destruct (connect_first results (set_fd st (sys_open h path)))
      as [ok1 st1].
    simpl in Hf, Ho, Hb. destruct ok1; intros [= _ <- _]; auto.
  - destruct (set_interface_attribs h _) as [ok1 log1].
    intros [= _ <- _]. simpl. auto.
Qed.

(** ** The terminal attributes *)

(** Equality and facts of flag words, bit by bit. *)
Ltac flag_bits n Hn :=
  repeat (rewrite ?Z.land_spec, ?Z.lor_spec, ?Z.bits_0,
                  ?(fun a => Z.lnot_spec a n Hn) in *).

Ltac flag_cases n :=
  repeat match goal with
         | |- context [Z.testbit ?x n] => destruct (Z.testbit x n)
         | H : context [Z.testbit ?x n] |- _ => destruct (Z.testbit x n)
         end;
  try reflexivity; try discriminate.

Ltac flags := apply Z.bits_inj'; intros n Hn; flag_bits n Hn; flag_cases n.

Section TermiosFacts.

Variables CSIZE CS8 IGNBRK IXON IXOFF IXANY CLOCAL CREAD CSTOPB : Z.
Variable CRTSCTS : option Z.
Variables VMIN VTIME : nat.

Local Notation "'configured' tty" :=
  (interface_attribs CSIZE CS8 IGNBRK IXON IXOFF IXANY CLOCAL CREAD CSTOPB
                     CRTSCTS VMIN VTIME tty)
  (at level 10, tty at level 9).

(** X16.  Whatever attributes the terminal had, the ones it is given have
    no local-mode and no output processing, the input flags of before with
    IGNBRK, IXON, IXOFF and IXANY cleared, CSTOPB and (where the host has
    it) CRTSCTS cleared, and a read timeout of 5 tenths of a second with no
    minimum count; the other control characters are as they were. *)
Theorem interface_attribs_raw (tty : termios) :
  c_lflag (configured tty) = 0
  /\ c_oflag (configured tty) = 0
  /\ c_iflag (configured tty)
     = Z.land (c_iflag tty)
              (Z.lnot (Z.lor IGNBRK (Z.lor (Z.lor IXON IXOFF) IXANY)))
  /\ Z.land (c_cflag (configured tty)) CSTOPB = 0
  /\ (forall mask, CRTSCTS = Some mask ->
                   Z.land (c_cflag (configured tty)) mask = 0)
  /\ c_cc (configured tty) VTIME = 5
  /\ (VMIN <> VTIME -> c_cc (configured tty) VMIN = 0)
  /\ (forall i, i <> VMIN -> i <> VTIME ->
                c_cc (configured tty) i = c_cc tty i).
Proof.
  unfold interface_attribs. cbn [c_lflag c_oflag c_iflag c_cflag c_cc].
  split; [reflexivity|]. split; [reflexivity|].
  split; [flags|]. split; [destruct CRTSCTS; flags|].
  split; [intros mask ->; flags|].
  unfold set_cc. rewrite Nat.eqb_refl. split; [reflexivity|]. split.
  - intros Hne. destruct (Nat.eqb_spec VMIN VTIME); [contradiction|].
    now rewrite Nat.eqb_refl.
  - intros i H1 H2.
    destruct (Nat.eqb_spec i VTIME); [contradiction|].
    destruct (Nat.eqb_spec i VMIN); [contradiction|reflexivity].
Qed.

(** X17.  If CS8 lies within the CSIZE field and the masks CSIZE,
    CLOCAL|CREAD, CSTOPB and CRTSCTS do not overlap, the attributes given
    select 8-bit characters and have CLOCAL and CREAD set. *)
Theorem interface_attribs_eight_bits (tty : termios) :
  Z.land CS8 (Z.lnot CSIZE) = 0 ->
  Z.land CSIZE (Z.lor CLOCAL CREAD) = 0 ->
  Z.land (Z.lor CSIZE (Z.lor CLOCAL CREAD)) CSTOPB = 0 ->
  (forall mask, CRTSCTS = Some mask ->
                Z.land (Z.lor CSIZE (Z.lor CLOCAL CREAD)) mask = 0) ->
  Z.land (c_cflag (configured tty)) CSIZE = CS8
  /\ Z.land (c_cflag (configured tty)) (Z.lor CLOCAL CREAD)
     = Z.lor CLOCAL CREAD.
Proof.
  intros H8 Hsize Hstop Hrts.
  unfold interface_attribs. cbn [c_cflag].
  assert (B8 : forall n, 0 <= n ->
             Z.testbit CS8 n && negb (Z.testbit CSIZE n) = false).
  { intros n Hn. apply (f_equal (fun z => Z.testbit z n)) in H8.
    flag_bits n Hn. exact H8. }
  assert (Bsize : forall n, 0 <= n ->
             Z.testbit CSIZE n && (Z.testbit CLOCAL n || Z.testbit CREAD n)
             = false).
  { intros n Hn. apply (f_equal (fun z => Z.testbit z n)) in Hsize.
    flag_bits n Hn. exact Hsize. }
  assert (Bstop : forall n, 0 <= n ->
             (Z.testbit CSIZE n || (Z.testbit CLOCAL n || Z.testbit CREAD n))
             && Z.testbit CSTOPB n = false).
  { intros n Hn. apply (f_equal (fun z => Z.testbit z n)) in Hstop.
    flag_bits n Hn. exact Hstop. }
  destruct CRTSCTS as [mask|].
  - assert (Brts : forall n, 0 <= n ->
               (Z.testbit CSIZE n || (Z.testbit CLOCAL n || Z.testbit CREAD n))
               && Z.testbit mask n = false).
    { intros n Hn. pose proof (Hrts mask eq_refl) as H.
      apply (f_equal (fun z => Z.testbit z n)) in H.
      flag_bits n Hn. exact H. }
    split; apply Z.bits_inj'; intros n Hn; flag_bits n Hn;
      specialize (B8 n Hn); specialize (Bsize n Hn);
      specialize (Bstop n Hn); specialize (Brts n Hn);
      flag_cases n.
  - split; apply Z.bits_inj'; intros n Hn; flag_bits n Hn;
      specialize (B8 n Hn); specialize (Bsize n Hn);
      specialize (Bstop n Hn);
      flag_cases n.
Qed.

(** X18.  Configuring a terminal that has been configured changes
    nothing: the attributes computed from configured attributes are the
    same attributes. *)
Theorem interface_attribs_idempotent (tty : termios) :
  c_iflag (configured (configured tty)) = c_iflag (configured tty)
  /\ c_oflag (configured (configured tty)) = c_oflag (configured tty)
  /\ c_cflag (configured (configured tty)) = c_cflag (configured tty)
  /\ c_lflag (configured (configured tty)) = c_lflag (configured tty)
  /\ forall i, c_cc (configured (configured tty)) i = c_cc (configured tty) i.
Proof.
  unfold interface_attribs.
  cbn [c_lflag c_oflag c_iflag c_cflag c_cc].
  split; [flags|]. split; [reflexivity|].
  split; [destruct CRTSCTS; flags|]. split; [reflexivity|].
  intros i. unfold set_cc.
  destruct (i =? VTIME)%nat; [reflexivity|].
  destruct (i =? VMIN)%nat; reflexivity.
Qed.

End TermiosFacts.

(** * Runs of the further properties *)

(** Three bytes of noise and then silence: a timeout. *)
Lemma read_frame_no_marker_run :
  exists st' io',
    run_read [9; 9] 2 initial_state [ReadData [1; 2; 3]]
    = Returned (-4, [9; 9], st', io').
Proof.
  destruct (read_frame_no_marker RESP_AMPERSAND EOM_HASH ampersand_not_NUL
              [9; 9] 2 initial_state [ReadData [1; 2; 3]])
    as (st' & io' & Hrun & _).
  - exact initial_state_ok.
  - reflexivity.
  - intros [H | [H | [H | []]]]; discriminate H.
  - exists st', io'. exact Hrun.
Defined.

(** A frame that stops after two bytes. *)
Lemma read_frame_starved_run :
  exists st' io',
    run_read (repeat 0 4%nat) 4 initial_state [ReadData [38; 65; 66]]
    = Returned (-4, [65; 66; 0; 0], st', io').
Proof.
  destruct (read_frame_starved RESP_AMPERSAND EOM_HASH ampersand_not_NUL
              (repeat 0 4%nat) 4 initial_state [ReadData [38; 65; 66]]
              [] [65; 66])
    as (st' & io' & Hrun & _).
  - exact initial_state_ok.
  - reflexivity.
  - simpl. lia.
  - unfold INT_MAX. lia.
  - reflexivity.
  - intros [].
  - intros [H | [H | []]]; discriminate H.
  - simpl. lia.
  - exists st', io'. exact Hrun.
Defined.

Lemma read_frame_result_classes_run :
  exists result buffer' st' io',
    run_read (repeat 0 4%nat) 4 initial_state [ReadData [38; 65; 35]]
    = Returned (result, buffer', st', io')
    /\ -6 <= result <= 4.
Proof.
  destruct (read_frame_result_classes RESP_AMPERSAND EOM_HASH
              ampersand_not_NUL (repeat 0 4%nat) 4 initial_state
              [ReadData [38; 65; 35]])
    as (result & buffer' & st' & io' & Hrun & Hclass).
  - exact initial_state_ok.
  - reflexivity.
  - simpl. lia.
  - unfold INT_MAX. lia.
  - exists result, buffer', st', io'. split; [exact Hrun|].
    destruct Hclass as [[H | [H | H]] | [[H _] | [H _]]]; lia.
Defined.

Lemma read_frame_destination_bounds_run :
  exists result buffer' st' io',
    run_read [1; 2; 3; 4; 5] 2 initial_state [ReadData [38; 65; 66; 67]]
    = Returned (result, buffer', st', io')
    /\ skipn 2 buffer' = [3; 4; 5].
Proof.
  destruct (read_frame_destination_bounds RESP_AMPERSAND EOM_HASH
              ampersand_not_NUL [1; 2; 3; 4; 5] 2 initial_state
              [ReadData [38; 65; 66; 67]])
    as (result & buffer' & st' & io' & Hrun & _ & Hskip).
  - exact initial_state_ok.
  - reflexivity.
  - simpl. lia.
  - unfold INT_MAX. lia.
  - exists result, buffer', st', io'. split; [exact Hrun|exact Hskip].
Defined.

Lemma read_frame_keeps_connection_run :
  exists result buffer' st' io',
    run_read [0; 0] 2 state_with_data [ReadData [38; 65; 35]]
    = Returned (result, buffer', st', io')
    /\ fd st' = 3
    /\ 0 <= read_buffer_offset st' <= read_buffer_fullness st'.
Proof.
  destruct (read_frame_keeps_connection RESP_AMPERSAND EOM_HASH
              ampersand_not_NUL [0; 0] 2 state_with_data
              [ReadData [38; 65; 35]])
    as (result & buffer' & st' & io' & Hrun & Hfd & Hc & _).
  - apply buffer_okb_spec. vm_compute. reflexivity.
  - reflexivity.
  - simpl. lia.
  - unfold INT_MAX. lia.
  - exists result, buffer', st', io'. auto.
Defined.

(** A frame with the start of the next one in the same chunk. *)
Lemma read_frame_leaves_rest_run :
  exists result buffer' st' io',
    run_read (repeat 0 4%nat) 4 initial_state [ReadData [38; 65; 35; 38; 66]]
    = Returned (result, buffer', st', io')
    /\ stream st' io' = [38; 66].
Proof.
  destruct (read_frame_leaves_rest RESP_AMPERSAND EOM_HASH ampersand_not_NUL
              (repeat 0 4%nat) 4 initial_state
              [ReadData [38; 65; 35; 38; 66]] [] [65] [38; 66])
    as (result & buffer' & st' & io' & Hrun & Hrest & _).
  - exact initial_state_ok.
  - reflexivity.
  - simpl. lia.
  - unfold INT_MAX. lia.
  - reflexivity.
  - intros [].
  - intros [H | []]; discriminate H.
  - simpl. lia.
  - exists result, buffer', st', io'. auto.
Defined.

Lemma read_frame_truncated_leaves_rest_run :
  exists buffer' st' io',
    run_read [0; 0] 2 initial_state [ReadData [38; 65; 66; 67; 35]]
    = Returned (2, buffer', st', io')
    /\ stream st' io' = [67; 35].
Proof.
  destruct (read_frame_truncated_leaves_rest RESP_AMPERSAND EOM_HASH
              ampersand_not_NUL [0; 0] 2 initial_state
              [ReadData [38; 65; 66; 67; 35]] [] [65; 66] [67; 35])
    as (buffer' & st' & io' & Hrun & Hrest & _).
  - exact initial_state_ok.
  - reflexivity.
  - simpl. lia.
  - unfold INT_MAX. lia.
  - reflexivity.
  - intros [].
  - intros [H | [H | []]]; discriminate H.
  - reflexivity.
  - exists buffer', st', io'. auto.
Defined.

(** Two frames, cut into chunks in the middle of the second. *)
Lemma read_two_frames_run :
  exists st1 io1 st2 io2,
    run_read [0; 0; 0] 3 initial_state
             [ReadData [38; 75; 35; 38]; ReadData [69; 35]]
    = Returned (1, [75; 0; 0], st1, io1)
    /\ run_read [0; 0; 0] 3 st1 io1 = Returned (1, [69; 0; 0], st2, io2)
    /\ stream st2 io2 = [].
Proof.
  apply (read_two_frames RESP_AMPERSAND EOM_HASH ampersand_not_NUL
           [0; 0; 0] [0; 0; 0] 3 3 initial_state
           [ReadData [38; 75; 35; 38]; ReadData [69; 35]]
           [] [75] [] [69] []).
  - exact initial_state_ok.
  - reflexivity.
  - simpl. lia.
  - unfold INT_MAX. lia.
  - simpl. lia.
  - unfold INT_MAX. lia.
  - reflexivity.
  - intros [].
  - intros [].
  - intros [H | []]; discriminate H.
  - intros [H | []]; discriminate H.
  - simpl. lia.
  - simpl. lia.
Defined.

(** A refill over a buffer that still held five unread bytes. *)
Lemma refill_replaces_pending_run :
  pending (snd (fst (bmda_read_more_data state_with_data [ReadData [1; 2; 3]])))
  = [1; 2; 3].
Proof.
  destruct (refill_replaces_pending state_with_data [ReadData [1; 2; 3]])
    as [(chunk & io' & Heq & _ & Hp & _) | [Hneg _]].
  - apply buffer_okb_spec. vm_compute. reflexivity.
  - reflexivity.
  - injection Heq as <- _. exact Hp.
  - simpl in Hneg. lia.
Defined.

Lemma device_is_bmp_gdb_port_iff_run :
  device_is_bmp_gdb_port PROBE_8BB20A03 = true.
Proof.
  apply (device_is_bmp_gdb_port_iff PROBE_8BB20A03). split.
  - right. left. exists (cstr "_v1.10.0_8BB20A03-if00"). reflexivity.
  - exists (cstr "usb-Black_Magic_Debug_Black_Magic_Probe_v1.10.0_8BB20A03").
    reflexivity.
Defined.

Lemma resolve_device_any_order_run :
  resolve_device two_probes_host None (Some (cstr "8BB2"))
  = Resolved (DEVICE_BY_ID ++ PROBE_8BB20A03)
  <-> resolve_device two_probes_host_reversed None (Some (cstr "8BB2"))
      = Resolved (DEVICE_BY_ID ++ PROBE_8BB20A03).
Proof.
  apply (resolve_device_any_order two_probes_host two_probes_host_reversed
           [SERIAL_ADAPTER; PROBE_8BB20A03; PROBE_72AE1B04]
           [PROBE_72AE1B04; PROBE_8BB20A03; SERIAL_ADAPTER]).
  - reflexivity.
  - reflexivity.
  - apply (Permutation_rev [SERIAL_ADAPTER; PROBE_8BB20A03; PROBE_72AE1B04]).
Defined.

(** The hint "0" occurs in both serial numbers. *)
Lemma resolve_device_serial_not_unique_run :
  resolve_device two_probes_host None (Some (cstr "0"))
  = Unresolved [Available_Probes; Probe_name PROBE_8BB20A03;
                Probe_name PROBE_72AE1B04;
                No_match_for_serial_number (cstr "0")].
Proof.
  apply (resolve_device_serial_not_unique two_probes_host
           [SERIAL_ADAPTER; PROBE_8BB20A03; PROBE_72AE1B04] (cstr "0")).
  - reflexivity.
  - vm_compute. discriminate.
  - vm_compute. discriminate.
Defined.

Lemma network_open_first_address_run :
  try_opening_network_device network_host (cstr "localhost:2000")
                             initial_state
  = Returned (true, set_fd initial_state 7, []).
Proof.
  pose proof (network_open_first_address network_host
                (cstr "localhost:2000") (cstr "localhost") (cstr "2000")
                [(-1, false); (5, false); (7, true); (9, true)]
                initial_state) as H.
  cbn [find usable_address fst snd Z.eqb negb andb] in H.
  apply H.
  - apply Nat.ltb_lt. reflexivity.
  - reflexivity.
  - intros Hin. simpl in Hin.
    repeat (destruct Hin as [Hin|Hin]; [discriminate Hin|]). destruct Hin.
  - discriminate.
  - reflexivity.
Defined.

Lemma serial_open_true_has_descriptor_run :
  serial_open local_host (Some (cstr "/dev/ttyACM0")) None state_with_data
  = Returned (true, mkSerial 3 (read_buffer state_with_data) 0 0, [])
  /\ fd (mkSerial 3 (read_buffer state_with_data) 0 0) <> -1.
Proof.
  assert (Hrun : serial_open local_host (Some (cstr "/dev/ttyACM0")) None
                             state_with_data
                 = Returned (true, mkSerial 3 (read_buffer state_with_data) 0 0,
                             []))
    by reflexivity.
  split; [exact Hrun|].
  apply (serial_open_true_has_descriptor _ _ _ _ _ _ Hrun).
Defined.

Lemma serial_open_macos_keeps_buffer_run :
  serial_open_macos local_host None (Some (cstr "8BB20A03")) state_with_data
  = Returned (true, state_with_data, [])
  /\ read_buffer_fullness state_with_data = 7.
Proof.
  assert (Hrun : serial_open_macos local_host None (Some (cstr "8BB20A03"))
                                   state_with_data
                 = Returned (true, state_with_data, []))
    by reflexivity.
  split; [exact Hrun|].
  destruct (serial_open_macos_keeps_buffer _ _ _ _ _ _ _ Hrun)
    as (_ & Hf & _).
  exact Hf.
Defined.

(** The Linux masks on a terminal in line mode. *)
Lemma interface_attribs_raw_run :
  c_lflag (linux_interface_attribs cooked_tty) = 0
  /\ c_iflag (linux_interface_attribs cooked_tty) = 256
  /\ c_cc (linux_interface_attribs cooked_tty) 6%nat = 0.
Proof.
  destruct (interface_attribs_raw 48 48 1 1024 4096 2048 2048 128 64
              (Some 2147483648) 6 5 cooked_tty)
    as (Hl & _ & Hi & _ & _ & _ & Hmin & _).
  split; [exact Hl|]. split; [exact Hi|].
  apply Hmin. discriminate.
Defined.

Lemma interface_attribs_eight_bits_run :
  Z.land (c_cflag (linux_interface_attribs cooked_tty)) 48 = 48
  /\ Z.land (c_cflag (linux_interface_attribs cooked_tty)) 2176 = 2176.
Proof.
  apply (interface_attribs_eight_bits 48 48 1 1024 4096 2048 2048 128 64
           (Some 2147483648) 6 5 cooked_tty).
  - reflexivity.
  - reflexivity.
  - reflexivity.
  - intros mask [= <-]. reflexivity.
Defined.

(** * The returned [int] for destinations of any size *)

Section WideLengths.

Variable REMOTE_RESP : Z.
Variable REMOTE_EOM : Z.
Hypothesis RESP_not_NUL : REMOTE_RESP <> 0.

(** The collector for every [size_t] destination length: what it returns
    is the result of the frame body converted to [int]. *)
Lemma collect_response_wide :
  forall (fuel : nat) (offset : Z) (buffer : list Z) (length : Z)
         (st : serial_state) (io : list transport_response),
    buffer_ok st -> responses_okb io = true ->
    0 <= offset <= length ->
    length <= Z.of_nat (List.length buffer) -> length < 2 ^ 64 ->
    (List.length (stream st io) < fuel)%nat ->
    forall (e : frame_end) (w : list Z),
      frame_body REMOTE_EOM (Z.to_nat (length - offset)) (stream st io) = (e, w) ->
      exists buffer' st' io',
        collect_response REMOTE_EOM fuel offset buffer length st io
        = Returned (int_of (body_result e offset w length (failure io)),
                    buffer', st', io').
Proof.
  induction fuel as [|fuel IH];
    intros offset buffer length st io Hok Hio Ho HL Hwide Hfuel e w Hbody;
    [inversion Hfuel|].
  cbn [collect_response].
  destruct (Z.ltb_spec offset length) as [Hlt|Hge].
  2:{ replace (Z.to_nat (length - offset)) with 0%nat in Hbody by bounds.
      injection Hbody as <- <-. exists buffer, st, io. reflexivity. }
  destruct (refill_if_empty st io) as [[result st1] io1] eqn:ER.
  destruct (refill_if_empty_spec st io Hok Hio _ _ _ ER)
    as [(Hneg & Hres & Hs & Hst) | (Hres & Hok1 & Hio1 & Hne & Hs & Hf & Hfd)].
  { destruct (Z.ltb_spec result 0); [|lia].
    rewrite Hs in Hbody.
    replace (Z.to_nat (length - offset))
      with (S (Z.to_nat (length - offset - 1))) in Hbody by bounds.
    injection Hbody as <- <-. subst result st1.
    exists buffer, st, io1. reflexivity. }
  subst result. cbv beta iota. change (0 <? 0) with false. cbv iota.
  pose proof Hok1 as [(H0 & H1 & H2) HA].
  rewrite (scan_for_eom_chunk REMOTE_EOM st1 offset length Hok1)
    by bounds.
  rewrite Z.add_0_r, Z.sub_0_r, set_offset_same. cbn [Z.add].
  destruct (scan_chunk REMOTE_EOM (Z.to_nat (length - offset)) (pending st1))
    as [c found] eqn:Escan.
  cbn [fst].
  destruct (scan_chunk_prefix _ _ _ _ _ Escan) as (Hpre & Hroom & Hlen).
  pose proof (pending_length st1 Hok1) as Hpl.
  assert (Hc : c <> []).
  { destruct (pending st1) as [|b p] eqn:Ep; [simpl in Hpl; lia|].
    replace (Z.to_nat (length - offset))
      with (S (Z.to_nat (length - offset - 1))) in Escan by bounds.
    eapply scan_chunk_nonempty; eassumption. }
  destruct (exists_last Hc) as (c' & x & Ec). subst c.
  rewrite length_app in *. cbn [List.length] in *.
  rewrite memcpy_overwrite by bounds.
  rewrite pending_firstn by (try assumption; bounds).
  rewrite !Nat2Z.id, <- Hpre.
  rewrite (size_t_small (Z.of_nat (List.length c' + 1) - 1)) by bounds.
  rewrite (size_t_small (offset + (Z.of_nat (List.length c' + 1) - 1)))
    by bounds.
  rewrite (size_t_small (read_buffer_offset st1
                         + Z.of_nat (List.length c' + 1))) by bounds.
  destruct (pending_skipn st1 (Z.of_nat (List.length c' + 1)) Hok1)
    as [Hskip Hok2]; [bounds|].
  rewrite Nat2Z.id in Hskip.
  set (st2 := set_offset st1 (read_buffer_offset st1
                              + Z.of_nat (List.length c' + 1))) in *.
  assert (HoA : List.length (firstn (Z.to_nat offset) buffer) = Z.to_nat offset)
    by (rewrite length_firstn; bounds).
  rewrite load_Z by bounds.
  replace (Z.to_nat (offset + (Z.of_nat (List.length c' + 1) - 1)))
    with (List.length (firstn (Z.to_nat offset) buffer) + List.length c')%nat
    by bounds.
  rewrite overwrite_last_nth.
  destruct (scan_chunk_last _ _ _ _ _ _ Escan) as [Hfound _].
  rewrite <- Hs in Hbody. unfold stream in Hbody.
  destruct (Z.eqb_spec x REMOTE_EOM) as [Ex|Ex]; subst found.
  - rewrite (frame_body_scan_found _ _ _ _ _ _ Escan) in Hbody.
    injection Hbody as <- <-.
    replace (offset + (Z.of_nat (List.length c' + 1) - 1))
      with (Z.of_nat (Z.to_nat offset + List.length c')) by bounds.
    rewrite overwrite_last_store by bounds.
    eexists _, st2, io1. f_equal. f_equal. f_equal. f_equal. f_equal.
    unfold body_result. rewrite length_app. cbn [List.length]. bounds.
  - rewrite (frame_body_scan_more _ _ _ _ _ Escan) in Hbody.
    rewrite length_app in Hbody. cbn [List.length] in Hbody.
    rewrite Hskip in Hbody.
    destruct (frame_body REMOTE_EOM
                (Z.to_nat (length - offset) - (List.length c' + 1))
                (pending st2 ++ fst (incoming io1))) as [e2 w2] eqn:E2.
    injection Hbody as <- <-.
    rewrite size_t_small by bounds.
    set (offset2 := offset + (Z.of_nat (List.length c' + 1) - 1) + 1).
    assert (Hfuel2 : (List.length (stream st2 io1) < fuel)%nat).
    { rewrite <- Hs in Hfuel. unfold stream in *.
      rewrite length_app in *. rewrite <- Hskip, length_skipn. lia. }
    assert (HL2 : length
                  <= Z.of_nat (List.length
                                 (overwrite buffer (Z.to_nat offset) (c' ++ [x])))).
    { rewrite overwrite_length; [bounds|].
      rewrite length_app. cbn [List.length]. lia. }
    assert (E2' : frame_body REMOTE_EOM (Z.to_nat (length - offset2))
                             (stream st2 io1) = (e2, w2)).
    { rewrite <- E2. unfold stream, offset2. f_equal. lia. }
    destruct (IH offset2 (overwrite buffer (Z.to_nat offset) (c' ++ [x]))
                 length st2 io1 Hok2 Hio1 ltac:(unfold offset2; lia)
                 HL2 Hwide Hfuel2 e2 w2 E2')
      as (buffer' & st' & io' & Hrun).
    exists buffer', st', io'. rewrite Hrun.
    f_equal. f_equal. f_equal. f_equal. f_equal.
    unfold body_result. destruct e2; try reflexivity; try congruence.
    rewrite !length_app. cbn [List.length]. unfold offset2. lia.
Qed.

(** [platform_buffer_read] for every [size_t] destination length: the
    result of the frame on the stream, converted to [int]. *)
Lemma platform_buffer_read_wide (buffer : list Z) (length : Z)
    (st : serial_state) (io : list transport_response) :
  buffer_ok st -> responses_okb io = true ->
  0 <= length <= Z.of_nat (List.length buffer) -> length < 2 ^ 64 ->
  exists buffer' st' io',
    platform_buffer_read REMOTE_RESP REMOTE_EOM buffer length st io
    = Returned (int_of (fst (frame_of_stream REMOTE_RESP REMOTE_EOM
                               (stream st io) (failure io) length buffer)),
                buffer', st', io').
Proof.
  intros Hok Hio HL Hwide. unfold platform_buffer_read, frame_of_stream.
  pose proof (drain_to_response_stream REMOTE_RESP (iterations io) 0 st io
                Hok Hio (stream_shorter_than_iterations st io Hok Hio)
                (not_eq_sym RESP_not_NUL)) as Hdrain.
  destruct (after_response REMOTE_RESP (stream st io)) as [body|].
  - destruct Hdrain as (st1 & io1 & -> & Hok1 & Hio1 & Hbody & Hf & _).
    destruct (frame_body REMOTE_EOM (Z.to_nat length) body) as [e w] eqn:E.
    destruct (collect_response_wide (iterations io1) 0 buffer
                length st1 io1 Hok1 Hio1 ltac:(lia) ltac:(lia) Hwide
                (stream_shorter_than_iterations st1 io1 Hok1 Hio1) e w)
      as (buffer' & st' & io' & Hrun).
    { rewrite Z.sub_0_r, Hbody. exact E. }
    exists buffer', st', io'. rewrite Hrun. cbn [fst].
    rewrite Hf. unfold body_result. destruct e; reflexivity.
  - destruct Hdrain as (st1 & io1 & -> & _).
    exists buffer, st1, io1. reflexivity.
Qed.

End WideLengths.

Lemma forallb_repeat {A} (f : A -> bool) (x : A) (n : nat) :
  f x = true -> forallb f (repeat x n) = true.
Proof.
  intros H. induction n as [|n IH]; simpl; [reflexivity|].
  now rewrite H, IH.
Qed.

Lemma length_concat_repeat {A} (c : list A) (n : nat) :
  length (concat (repeat c n)) = (n * length c)%nat.
Proof.
  induction n as [|n IH]; simpl; [reflexivity|].
  now rewrite length_app, IH.
Qed.

Lemma in_concat_repeat {A} (x : A) (c : list A) (n : nat) :
  In x (concat (repeat c n)) -> In x c.
Proof.
  induction n as [|n IH]; simpl; [intros []|].
  intros H. apply in_app_or in H as [H|H]; [exact H|exact (IH H)].
Qed.

(** A destination that is filled before a marker comes, for every [size_t]
    length: the call returns the length converted to [int]. *)
Lemma read_frame_filled_wide (REMOTE_RESP REMOTE_EOM : Z)
    (buffer : list Z) (length : Z)
    (st : serial_state) (io : list transport_response)
    (noise body rest : list Z) :
  REMOTE_RESP <> 0 ->
  buffer_ok st -> responses_okb io = true ->
  0 <= length <= Z.of_nat (List.length buffer) -> length < 2 ^ 64 ->
  stream st io = noise ++ REMOTE_RESP :: body ++ rest ->
  ~ In REMOTE_RESP noise -> ~ In REMOTE_EOM body ->
  Z.of_nat (List.length body) = length ->
  exists buffer' st' io',
    platform_buffer_read REMOTE_RESP REMOTE_EOM buffer length st io
    = Returned (int_of length, buffer', st', io').
Proof.
  intros Hresp Hok Hio HL Hwide Hs Hnoise Hbody Hlen.
  destruct (platform_buffer_read_wide REMOTE_RESP REMOTE_EOM Hresp
              buffer length st io Hok Hio HL Hwide)
    as (buffer' & st' & io' & Hrun).
  exists buffer', st', io'. rewrite Hrun. unfold frame_of_stream.
  rewrite Hs, after_response_split by assumption.
  replace (Z.to_nat length) with (List.length body) by lia.
  rewrite frame_body_filled by assumption. reflexivity.
Qed.

(** A destination of 2^31 bytes and a stream of 2^31 bytes 'A' behind the
    start marker, delivered 4096 bytes at a time. *)
Lemma read_two_gib (size chunks : nat) :
  Z.of_nat size = 2147483648 -> Z.of_nat chunks = 524288 ->
  exists buffer' st' io',
    run_read (repeat 0 size) 2147483648 initial_state
             (ReadData [38] :: repeat (ReadData (repeat 65 4096%nat)) chunks)
    = Returned (-2147483648, buffer', st', io').
Proof.
  intros Hsize Hchunks.
  set (chunk := repeat 65 4096%nat).
  assert (Hchunk : List.length chunk = 4096%nat) by apply repeat_length.
  assert (Hin : forall x, In x chunk -> x = 65)
    by (intros x H; exact (repeat_spec _ _ _ H)).
  assert (Hrok : response_okb (ReadData chunk) = true).
  { unfold response_okb. rewrite Hchunk. reflexivity. }
  clearbody chunk.
  assert (Hpend : pending initial_state = [])
    by (apply pending_empty; [exact initial_state_ok|reflexivity]).
  replace (-2147483648) with (int_of 2147483648) by reflexivity.
  apply (read_frame_filled_wide RESP_AMPERSAND EOM_HASH
           (repeat 0 size) 2147483648 initial_state
           (ReadData [38] :: repeat (ReadData chunk) chunks)
           [] (concat (repeat chunk chunks)) []).
  - exact ampersand_not_NUL.
  - exact initial_state_ok.
  - unfold responses_okb. cbn [forallb].
    rewrite (forallb_repeat response_okb _ chunks Hrok). reflexivity.
  - rewrite repeat_length. lia.
  - lia.
  - unfold stream. rewrite Hpend, incoming_data.
    rewrite <- map_repeat, incoming_of_chunks. cbn [fst app].
    now rewrite app_nil_r.
  - intros [].
  - intros H. apply in_concat_repeat, Hin in H. discriminate H.
  - rewrite length_concat_repeat, Hchunk. lia.
Qed.

(** C5 as stated fails: [platform_buffer_read] returns [int].  A destination
    of 2^31 bytes that is filled by 2^31 bytes 'A' behind the start marker
    makes the call return -2147483648, not 2147483648. *)
Lemma read_frame_two_gib_is_negative :
  (exists buffer' st' io',
      run_read (repeat 0 (Z.to_nat 2147483648)) 2147483648 initial_state
               (ReadData [38]
                :: repeat (ReadData (repeat 65 4096%nat)) (Z.to_nat 524288))
      = Returned (-2147483648, buffer', st', io'))
  /\ ~ (exists buffer' st' io',
          run_read (repeat 0 (Z.to_nat 2147483648)) 2147483648 initial_state
                   (ReadData [38]
                    :: repeat (ReadData (repeat 65 4096%nat))
                              (Z.to_nat 524288))
          = Returned (2147483648, buffer', st', io')).
Proof.
  assert (H : exists buffer' st' io',
             run_read (repeat 0 (Z.to_nat 2147483648)) 2147483648
                      initial_state
                      (ReadData [38]
                       :: repeat (ReadData (repeat 65 4096%nat))
                                 (Z.to_nat 524288))
             = Returned (-2147483648, buffer', st', io'))
    by (apply read_two_gib; apply Z2Nat.id; lia).
  split; [exact H|].
  destruct H as (b & s & i & H). intros (b' & s' & i' & H').
  rewrite H in H'. injection H' as Hr _ _ _. discriminate Hr.
Qed.

(** C10, the code at the failing input.  A first call reads the frame "&K#"
    and leaves the buffer empty.  Then read() returns 0 bytes: the stream
    holds no byte at all, and no start-of-response marker, yet the call
    with destination length 0 returns 0, having taken the stale
    read_buffer[0] for the marker, where the stream should make it return
    the result of a failed refill. *)
Theorem read_zero_length_without_marker :
  match run_read (repeat 0 4%nat) 4 initial_state [ReadData [38; 75; 35]] with
  | Returned (_, buffer1, st1, io1) =>
      stream st1 (ReadData [] :: io1) = []
      /\ returned_value (run_read buffer1 0 st1 (ReadData [] :: io1)) = Some 0
  | _ => False
  end.
Proof. vm_compute. split; reflexivity. Qed.
